(* ===== verification/_CoqProject ===== *)
-Q . S2P
Prelude.v
Types.v
Scoring.v
Candidates.v
Feedback.v
Shuffle.v
Clues.v
Solver.v
SolverInv.v
Strategy.v
Format.v
Terminal.v
Driver.v
