(* ===== verification/Prelude.v ===== *)
(** * A verification development of atcase/mastermind (src/mastermind.py)

    The program is a brute-force Mastermind solver of 91 lines of Python:
    a secret of 4 colours out of 8 is guessed by trying, in a fixed
    order, every code of 4 distinct colours that is consistent with the
    feedback (the clues) received so far, for at most 12 clues.  The
    script plays one game for each of the 1680 possible codes.

    ** The parts of the program and the files that model them

    - [Types.v]: the data (lines 8-14): [Colors] (the [Enum]) with
      [Colors_members] (its iteration order) and [Colors_value] (the
      members' values, 1 to 8), the named tuple [Score]
      (two [Z] fields), [Code] and [Clue] (type aliases, as in Python),
      [CODE_LEN], [MAX_TRIES], and [Line], one printed line with the
      values its f-string interpolates.
    - [Scoring.v], module [Scoring]: [score_guess] (lines 53-56), with
      [zip] as [combine] and [list.count(True)] as [count_true]; the
      interface [ScorerLaws] (a type class of laws of a scoring
      function: exact match on all positions means equality, a code
      scores all its positions against itself, symmetry on codes without
      repeated colours), discharged by [score_guess_laws]; and
      [score_classic], the multiset scoring of classic Mastermind.
    - [Candidates.v]: [all_possible_solutions] (lines 59-60) is
      [itertools.permutations(Colors, 4)]; the library function is
      modelled by its documented equivalent ([permutations]: index tuples
      of [itertools.product], kept when [len(set(indices)) == r]), and
      proved equal to the recursive enumeration [perms_avoid].
    - [Feedback.v]: the fourteen scores [feasible_scores] that
      [score_guess] can return on two candidates.
    - [Shuffle.v]: [create_code] (lines 17-20) and the library call it
      makes, [random.shuffle], modelled from CPython's loop (for [i] from
      [len(x) - 1] down to 1, swap [x[i]] with [x[randbelow(i + 1)]]).
      The generator is an interface: the type class [RandomSource] gives
      [randbelow], which takes and returns the generator's state, and
      [RandomLaws] its contract (a result below the bound).  The
      instance [draws_source] reads the results from a list, which is
      how every sequence of draws is enumerated.
    - [Clues.v]: [solution_matches_clues] (lines 63-67), written against
      any scoring function (a section variable).
    - [Solver.v], module [Solver]: [solve] (lines 70-86).  The loop's
      locals [clues], [guess_num] and the printed lines are the record
      [SolveState]; [solve_body] is one iteration (lines 75-81),
      [solve_loop] the [for] loop with its [break] (lines 74-83), and
      [LoopExit] says how the loop ended.  The same solver is the small
      step relation [step] on configurations [Cfg phase remaining
      state], with the phases of the spec's state machine ([Running],
      [Solved], [Exhausted], [DepletedP]); [solve_loop_refines] proves
      that the loop reaches, under [step], the configuration it returns.
    - [SolverInv.v]: the invariant [solver_inv] of every configuration
      reachable by [step], proved by induction on the steps, and what it
      gives for [solve], the error path for a secret that is not a
      candidate included.  These proofs use only [ScorerLaws].
    - [Strategy.v]: the reference strategy [restart] (before each guess,
      search all candidates from the start for the first one consistent
      with the clues, [first_consistent]) and its printed form
      [solve_strategy], proved equal to [solve].
    - [Format.v], module [Format]: [format_code] (lines 23-38) with the
      dictionary [color_lookup], [format_clue] (lines 41-50) and
      [print_line], the f-strings of the three [print] calls (lines 77,
      85, 91).  The escape strings of [colorama] are written out from
      [colorama.ansi] ([CSI + str(code) + "m"]).  Decoders read printed
      text back; [stdout] is what [print] writes, each line followed by
      a newline, and [decode_stdout] cuts it into lines and decodes
      them.
    - [Terminal.v], module [Terminal]: the terminal that shows the
      output, as the ECMA-48 parser state machine [term_step] (ground,
      escape, control-sequence parameters) applying the Select Graphic
      Rendition codes [sgr] that [colorama] emits; [term_run] reads a
      whole text and yields the cells shown, each byte with its
      attributes.
    - [Driver.v], module [Driver]: the loop of lines 89-92 ([run_games],
      [main], [script_stdout]), the exhaustive regression, and the run
      of [solve] on every secret of four colours with a repeated
      colour.

    The components interact by calls only: [solve] calls
    [solution_matches_clues] and [score_guess] and iterates over
    [all_possible_solutions]; printing goes through [Format].  There is
    no shared state between games: each call of [solve] starts from
    [solve_init].

    ** The theorems

    - Scoring: [num_correct] counts the agreeing positions and
      [num_almost_correct] the positions whose colour occurs elsewhere in
      the answer; bounds [0 <= num_correct <= len],
      [0 <= num_almost_correct], sum at most [len];
      [score_guess a a = (len a, 0)]; symmetry on codes without repeated
      colours; agreement with [score_classic] on guesses without
      repeated colours, and in general the over-count: the two counts
      never fall below the common colours counted with multiplicity and
      exceed them exactly when the guess holds a colour more often than
      the answer ([score_guess_overcount]); a transposition of two
      colours scores [(len - 2, 2)]; [(0, 0)] exactly for disjoint codes.
    - Enumeration: [permutations] equals [perms_avoid]; the candidates
      are exactly the codes of four distinct colours; there are 1680,
      none repeated; they come in the canonical (lexicographic) order.
    - Feedback: on two candidates [score_guess] takes exactly the
      fourteen feasible scores; [(3, 1)] never occurs.
    - Random secret: [random.shuffle] permutes its list for every
      generator meeting [RandomLaws], so [create_code] always yields a
      candidate; and with uniform independent draws it is uniform: each
      candidate comes from exactly 24 of the 40320 sequences of draws.
    - Clue filter: it accepts exactly the guesses consistent with every
      clue.
    - Solver: [step] is deterministic and is refined by [solve_loop];
      a game never goes past its secret: for the secret at index [k] of
      the candidates every run has at most [k + 1] steps; in
      every reachable configuration the clues hold the scores received
      against the secret and every guess passed the filter on the clues
      before it; [solve] prints one numbered line per guess and then the
      winning line or the failure line; a returned code is the secret; a
      secret among the candidates is returned or the game stops after
      exactly 12 wrong guesses, never by running out of candidates; a
      secret of four colours that is not a candidate makes [solve]
      return [None] after the failure line; and [solve] returns and
      prints exactly what the restart-from-the-start strategy
      [solve_strategy] does.
    - Regression: every one of the 1680 candidates, taken as the secret,
      is returned within at most 7 guesses ([Driver.solve_exhaustive]);
      the script's output is, game by game, the game line and the
      guess lines of a won game of at most 7 guesses ending with the
      secret's line, and never the failure line ([main_games]); each
      of the 2416 secrets with a repeated colour is played to the end of
      the candidates (DEPLETED) in at most 7 guesses and fails, where
      the spec asks for the secret to be rejected; a secret of more than
      four colours can only be answered with its first four colours, a
      code that is not the secret, and is when those are distinct and
      the rest repeats them ([solve_long_secret]).
    - Formatting: every printed line decodes back to the values it was
      printed from, and standard output decodes back to the list of
      printed lines.
    - Terminal: a formatted code is shown as one peg per colour in that
      colour's appearance and leaves the default style; no two codes
      look the same (GREY is normal-intensity white, WHITE bright); a
      guess line shows the exact count in bright red and the misplaced
      count in bright white.

    ** Bounds, fuel and integers

    Python's [int] is [Z] where the program computes with it (the score
    fields, the constants, the guess and game counters); lengths are
    [nat], converted with [Z.of_nat] where Python compares them with an
    [int].  Every loop of the program iterates over a finite list and is
    a structural [Fixpoint]: no fuel is needed.  The only fuel is in the
    decoder [Format.parse_pegs], which reads at most one peg per
    character of its input; the round-trip lemma shows that the length
    of the text is enough; and in the reference strategy [restart],
    whose fuel [MAX_TRIES] is enough because every call but the last
    records a clue and the twelfth clue stops it.  The exhaustive regression is proved by
    evaluating [solve] on the 1680 candidates, the repeated-colour
    theorem by evaluating it on the 2416 codes of
    [itertools.product(Colors, repeat=4)] that repeat a colour, and the
    uniformity of [create_code] by a tally (a [gmap] from codes to
    counts) of the results of [create_code] on all 40320 sequences of
    draws; these evaluations are checked by the kernel's virtual
    machine ([vm_cast_no_check] leaves the check to [Qed]).

    ** Not modelled

    The bits of CPython's Mersenne Twister behind [_randbelow]: the
    generator is the interface [RandomSource] with the contract of
    [_randbelow]; uniformity is stated for uniform independent draws.
    [create_code] is not called by the script.  The terminal is modelled
    only as far as the program drives it: the SGR codes it emits, bytes
    shown one per cell (the peg glyph is its three UTF-8 bytes, not one
    decoded character), no cursor movement or line wrapping;
    [colorama.init] is never called, so no Windows conversion layer is
    involved.  The imports (lines 1-6) and the type hints (the aliases
    [Code] and [Clue] of lines 13-14, abbreviations here) carry no
    behaviour.

    This file holds what the components share: the scope [mm_scope]
    ([x == y] for Python's equality test, [let* x := m in k] for the
    option monad), the hint databases [mastermind] and [mastermind_rw],
    the tactic [bdec], and generic lemmas on [count_true], on lists
    without duplicates (Python's [len(set(l))]) and on [flat_map]. *)

From stdpp Require Export base list sets relations.
From Stdlib Require Export ZArith Lia.

Declare Scope mm_scope.
Delimit Scope mm_scope with mm.

(** Python's [x == y] on values of a type with decidable equality. *)
Notation "x == y" := (bool_decide (x = y)) (at level 70, no associativity) : mm_scope.

(** Binding in the option monad, for the decoders of printed text. *)
Notation "'let*' x ':=' m 'in' k" :=
  (match m with Some x => k | None => None end)
  (at level 10, x pattern, m at level 100, k at level 200) : mm_scope.

Create HintDb mastermind discriminated.
Create Rewrite HintDb mastermind_rw.

(** Python's [x in l] on a list. *)
Definition py_in {A} `{EqDecision A} (x : A) (l : list A) : bool :=
  bool_decide (x ∈ l).

(** Python's [l.count(True)] on a list of booleans, as an [int]. *)
Fixpoint count_true (l : list bool) : Z :=
  match l with
  | [] => 0
  | b :: l' => (if b then 1 else 0) + count_true l'
  end%Z.

(** ** Lemmas on [count_true] *)

Lemma count_true_app (l1 l2 : list bool) :
  count_true (l1 ++ l2) = (count_true l1 + count_true l2)%Z.
Proof. induction l1 as [|b l1 IH]; simpl; [done|]. rewrite IH. lia. Qed.

Lemma count_true_bounds (l : list bool) :
  (0 <= count_true l <= Z.of_nat (length l))%Z.
Proof. induction l as [|[] l IH]; simpl; lia. Qed.

Lemma count_true_nonneg (l : list bool) : (0 <= count_true l)%Z.
Proof. apply count_true_bounds. Qed.

Lemma count_true_filter {A} (p : A -> bool) (l : list A) :
  count_true (map p l) = Z.of_nat (length (List.filter p l)).
Proof. induction l as [|x l IH]; simpl; [done|]. destruct (p x); simpl; lia. Qed.

Lemma count_true_all {A} (p : A -> bool) (l : list A) :
  (forall x, x ∈ l -> p x = true) ->
  count_true (map p l) = Z.of_nat (length l).
Proof.
  induction l as [|x l IH]; intros Hp; simpl; [done|].
  rewrite Hp by set_solver. rewrite IH by set_solver. lia.
Qed.

Lemma count_true_all_inv {A} (p : A -> bool) (l : list A) :
  count_true (map p l) = Z.of_nat (length l) -> forall x, x ∈ l -> p x = true.
Proof.
  induction l as [|y l IH]; intros Hc x Hx; [set_solver|]. cbn in Hc.
  pose proof (count_true_bounds (map p l)) as Hb. rewrite length_map in Hb.
  apply elem_of_cons in Hx as [-> | Hx]; destruct (p y) eqn:Hy; try done; try lia.
  apply IH; [lia | done].
Qed.

Lemma count_true_none {A} (p : A -> bool) (l : list A) :
  (forall x, x ∈ l -> p x = false) -> count_true (map p l) = 0%Z.
Proof.
  induction l as [|x l IH]; intros Hp; simpl; [done|].
  rewrite Hp by set_solver. rewrite IH by set_solver. lia.
Qed.

#[export] Hint Rewrite count_true_app : mastermind_rw.
#[export] Hint Resolve count_true_bounds count_true_nonneg : mastermind.

(** ** Lists without duplicates *)

(** Two duplicate-free lists with the same elements have the same length. *)
Lemma NoDup_same_elems_length {A} (l k : list A) :
  NoDup l -> NoDup k -> (forall x, x ∈ l <-> x ∈ k) -> length l = length k.
Proof. intros Hl Hk Hlk. apply Permutation_length, NoDup_Permutation; auto. Qed.

Lemma NoDup_filter_bool {A} (p : A -> bool) (l : list A) :
  NoDup l -> NoDup (List.filter p l).
Proof. rewrite !NoDup_ListNoDup. apply List.NoDup_filter. Qed.

Lemma elem_of_filter_bool {A} (p : A -> bool) (l : list A) (x : A) :
  x ∈ List.filter p l <-> x ∈ l /\ p x = true.
Proof. rewrite !list_elem_of_In. apply filter_In. Qed.

(** A filter and its complement split a list. *)
Lemma length_filter_negb {A} (p : A -> bool) (l : list A) :
  length (List.filter p l) + length (List.filter (fun x => negb (p x)) l) = length l.
Proof. induction l as [|x l IH]; cbn; [done|]. destruct (p x); cbn; lia. Qed.

(** In a list without duplicates, an element at index [k] is left in
    [drop m l] only when [m <= k]. *)
Lemma NoDup_elem_of_drop {A} (l : list A) (k m : nat) (x : A) :
  NoDup l -> l !! k = Some x -> x ∈ drop m l -> m <= k.
Proof.
  intros Hnd Hk [i Hi]%list_elem_of_lookup. rewrite lookup_drop in Hi.
  pose proof (NoDup_lookup l _ _ x Hnd Hi Hk). lia.
Qed.

#[export] Hint Resolve NoDup_filter_bool : mastermind.

(** A list has no duplicates iff Python's [len(set(l)) == len(l)]. *)
Lemma length_remove_dups_le `{EqDecision A} (l : list A) : length (remove_dups l) <= length l.
Proof. induction l as [|x l IH]; simpl; [lia|]. case_decide; simpl; lia. Qed.

Lemma NoDup_length_remove_dups `{EqDecision A} (l : list A) :
  NoDup l <-> length (remove_dups l) = length l.
Proof.
  induction l as [|x l IH]; simpl; [split; auto using NoDup_nil_2|].
  rewrite NoDup_cons. case_decide as Hx.
  - pose proof (length_remove_dups_le l). split; [tauto | lia].
  - simpl. rewrite IH. split; [intros []; lia | intros; split; [done | lia]].
Qed.

(** ** [flat_map] *)

Lemma filter_flat_map {A B} (p : B -> bool) (f : A -> list B) (l : list A) :
  List.filter p (flat_map f l) = flat_map (fun x => List.filter p (f x)) l.
Proof. induction l as [|x l IH]; simpl; [done|]. by rewrite List.filter_app, IH. Qed.

Lemma map_flat_map' {A B C} (g : B -> C) (f : A -> list B) (l : list A) :
  map g (flat_map f l) = flat_map (fun x => map g (f x)) l.
Proof. induction l as [|x l IH]; simpl; [done|]. by rewrite map_app, IH. Qed.

Lemma flat_map_map' {A B C} (f : B -> list C) (g : A -> B) (l : list A) :
  flat_map f (map g l) = flat_map (fun x => f (g x)) l.
Proof. induction l as [|x l IH]; simpl; [done|]. by rewrite IH. Qed.

Lemma flat_map_ext_elem {A B} (f g : A -> list B) (l : list A) :
  (forall x, x ∈ l -> f x = g x) -> flat_map f l = flat_map g l.
Proof.
  induction l as [|x l IH]; intros Hfg; simpl; [done|].
  rewrite Hfg by set_solver. rewrite IH by set_solver. done.
Qed.

Lemma elem_of_flat_map {A B} (f : A -> list B) (l : list A) (y : B) :
  y ∈ flat_map f l <-> exists x, x ∈ l /\ y ∈ f x.
Proof.
  induction l as [|x l IH]; simpl.
  - split; [set_solver | intros (? & ? & _); set_solver].
  - rewrite elem_of_app, IH. split.
    + intros [Hy | (z & Hz & Hy)]; [exists x | exists z]; split; set_solver.
    + intros (z & [->|Hz]%elem_of_cons & Hy); eauto.
Qed.

Lemma NoDup_flat_map {A B} (f : A -> list B) (l : list A) :
  NoDup l -> (forall x, x ∈ l -> NoDup (f x)) ->
  (forall x y z, x ∈ l -> y ∈ l -> z ∈ f x -> z ∈ f y -> x = y) ->
  NoDup (flat_map f l).
Proof.
  induction 1 as [|x l Hx Hl IH]; intros Hf Hdisj; simpl; [constructor|].
  apply NoDup_app. split; [set_solver|]. split; [|apply IH; set_solver].
  intros z Hz (y & Hy & Hzy)%elem_of_flat_map.
  assert (x = y) by (apply (Hdisj x y z); set_solver). set_solver.
Qed.

Lemma NoDup_map_cons {A} (x : A) (L : list (list A)) : NoDup L -> NoDup (map (cons x) L).
Proof.
  induction 1 as [|t L Ht HL IH]; simpl; constructor; [|done].
  intros (t' & Heq & Ht')%list_elem_of_fmap. injection Heq as ->. done.
Qed.

(** ** Tactics *)

(** Turn every [bool_decide] of the goal and the hypotheses into the
    proposition it decides. *)
Ltac bdec :=
  repeat match goal with
         | H : bool_decide _ = true |- _ => apply bool_decide_eq_true in H
         | H : bool_decide _ = false |- _ => apply bool_decide_eq_false in H
         | |- context [bool_decide ?P] => case_bool_decide
         end.
