(* ===== verification/Types.v ===== *)
(** The data of src/mastermind.py (lines 8-14): the colour enumeration,
    the [Score] named tuple, codes and clues, and the two constants.
    Equality on colours and scores is decidable, as Python's [==] is on
    enum members and named tuples. *)

From S2P Require Import Prelude.

(** [Colors = Enum("Colors", "RED GREEN BLUE YELLOW WHITE GREY PINK CYAN")]:
    the members in their definition order. *)
Inductive Colors : Type :=
| RED | GREEN | BLUE | YELLOW | WHITE | GREY | PINK | CYAN.

#[export] Instance Colors_eq_dec : EqDecision Colors.
Proof. solve_decision. Defined.

#[export] Instance Colors_inhabited : Inhabited Colors := populate RED.

(** The members' values: the functional [Enum] API numbers them from 1,
    [Colors.RED.value == 1] to [Colors.CYAN.value == 8]. *)
Definition Colors_value (c : Colors) : nat :=
  match c with
  | RED => 1 | GREEN => 2 | BLUE => 3 | YELLOW => 4
  | WHITE => 5 | GREY => 6 | PINK => 7 | CYAN => 8
  end.

(** [Colors(n)]: the member of value [n]; Python raises [ValueError] for
    any other [n]. *)
Definition Colors_of_value (n : nat) : option Colors :=
  match n with
  | 1 => Some RED | 2 => Some GREEN | 3 => Some BLUE | 4 => Some YELLOW
  | 5 => Some WHITE | 6 => Some GREY | 7 => Some PINK | 8 => Some CYAN
  | _ => None
  end.

(** [list(Colors)]: iterating an [Enum] yields its members in definition
    order. *)
Definition Colors_members : list Colors :=
  [RED; GREEN; BLUE; YELLOW; WHITE; GREY; PINK; CYAN].

(** [Score = namedtuple("Score", "num_correct num_almost_correct")]. *)
Record Score : Type := mkScore {
  num_correct : Z;
  num_almost_correct : Z
}.

#[export] Instance Score_eq_dec : EqDecision Score.
Proof. solve_decision. Defined.

(** [Code = Sequence[Colors]] and [Clue = Tuple[Code, Score]]: type
    aliases, as in the source. *)
Abbreviation Code := (list Colors) (only parsing).
Abbreviation Clue := ((list Colors * Score)%type) (only parsing).

Definition CODE_LEN : Z := 4.
Definition MAX_TRIES : Z := 12.

(** ** Facts about the data *)

Lemma Colors_members_complete (c : Colors) : c ∈ Colors_members.
Proof. destruct c; unfold Colors_members; set_solver. Qed.

Lemma Colors_members_NoDup : NoDup Colors_members.
Proof. unfold Colors_members. repeat constructor; rewrite list_elem_of_In; simpl; intuition discriminate. Qed.

#[export] Hint Resolve Colors_members_complete Colors_members_NoDup : mastermind.

(** ** Printed lines

    The program's only effect is printing; each [print] call is one
    [Line], carrying the values its f-string interpolates ([Format.v]
    renders them to the strings written):
    - [GuessLine]: [f"Guess #{guess_num}: {format_code(solution)}  Clue: {format_clue(score)}"] (line 77);
    - [FailLine]: ["Couldn't find an answer :("] (line 85);
    - [GameLine]: [f"Game number {number}, Selected code is {format_code(code)}"] (line 91). *)
Inductive Line : Type :=
| GuessLine (guess_num : Z) (solution : Code) (score : Score)
| FailLine
| GameLine (number : Z) (code : Code).

#[export] Instance Line_eq_dec : EqDecision Line.
Proof. solve_decision. Defined.
