(* ===== verification/Scoring.v ===== *)
(** The scoring function [score_guess] of src/mastermind.py (lines
    53-56), the laws that the solver needs from a scoring function (the
    interface [ScorerLaws], discharged here for [score_guess]), and a
    multiset-aware reference scoring [score_classic] against which the
    Python formula is compared. *)

From S2P Require Import Prelude Types.

Open Scope mm_scope.

Module Scoring.

(** [score_guess(guess, answer)]:
    - [num_correct_colors_in_correct_loc]: [[g == a for g, a in zip(guess,
      answer)].count(True)], [zip] being [combine] (both stop at the
      shorter list);
    - [num_correct_colors_in_wrong_loc]: [[g in answer for g in
      guess].count(True)] minus the former. *)
Definition score_guess (guess answer : Code) : Score :=
  let num_correct_colors_in_correct_loc :=
    count_true (map (fun '(g, a) => g == a) (combine guess answer)) in
  let num_correct_colors_in_wrong_loc :=
    (count_true (map (fun g => py_in g answer) guess)
     - num_correct_colors_in_correct_loc)%Z in
  mkScore num_correct_colors_in_correct_loc num_correct_colors_in_wrong_loc.

(** The two counts the formula is built from. *)
Definition exact_count (guess answer : Code) : Z :=
  count_true (map (fun '(g, a) => g == a) (combine guess answer)).

Definition present_count (guess answer : Code) : Z :=
  count_true (map (fun g => py_in g answer) guess).

(** The positions where the two codes agree, the reading of
    [num_correct] the spec gives. *)
Definition agreeing_positions (guess answer : Code) : list nat :=
  List.filter (fun i => guess !! i == answer !! i)
    (seq 0 (min (length guess) (length answer))).

(** The positions of the guess whose colour occurs in the answer but
    not at that position, the reading of [num_almost_correct] the spec
    gives. *)
Definition misplaced_positions (guess answer : Code) : list nat :=
  List.filter (fun i => match guess !! i with
                        | Some x => (py_in x answer && negb (Some x == answer !! i))%bool
                        | None => false
                        end)
    (seq 0 (length guess)).

(** The laws of a scoring function that the solver's proofs use: an
    exact match on every position of two codes of the same length means
    equal codes, a code scores all its positions against itself, and the
    score is symmetric on codes without repeated colours. *)
Class ScorerLaws (score : Code -> Code -> Score) : Prop := {
  scorer_exact g a :
    length g = length a -> num_correct (score g a) = Z.of_nat (length a) -> g = a;
  scorer_self a : num_correct (score a a) = Z.of_nat (length a);
  scorer_sym g a : NoDup g -> NoDup a -> score g a = score a g
}.

(** ** Lemmas on the two counts *)

Lemma score_guess_fields g a :
  score_guess g a = mkScore (exact_count g a) (present_count g a - exact_count g a).
Proof. reflexivity. Qed.

Lemma exact_count_le_present g a (A : Code) :
  (forall x, x ∈ a -> x ∈ A) -> (exact_count g a <= present_count g A)%Z.
Proof.
  unfold exact_count, present_count, py_in.
  revert a. induction g as [|x g IH]; intros [|y a] Hsub; cbn [combine map count_true].
  - lia.
  - lia.
  - apply Z.add_nonneg_nonneg; [case_bool_decide; lia | apply count_true_nonneg].
  - specialize (IH a ltac:(set_solver)).
    bdec; subst; try lia. exfalso. set_solver.
Qed.

Lemma exact_count_le_length g a : (0 <= exact_count g a <= Z.of_nat (length g))%Z.
Proof.
  unfold exact_count. pose proof (count_true_bounds (map (fun '(g0, a0) => g0 == a0) (combine g a))).
  rewrite length_map, length_combine in H. lia.
Qed.

Lemma present_count_le_length g a : (0 <= present_count g a <= Z.of_nat (length g))%Z.
Proof.
  unfold present_count. pose proof (count_true_bounds (map (fun x => py_in x a) g)).
  rewrite length_map in H. exact H.
Qed.

Lemma exact_count_self a : exact_count a a = Z.of_nat (length a).
Proof.
  unfold exact_count. induction a as [|x a IH]; simpl; [done|].
  rewrite bool_decide_true by done. lia.
Qed.

Lemma present_count_self a : present_count a a = Z.of_nat (length a).
Proof. unfold present_count, py_in. apply count_true_all. intros x Hx. by apply bool_decide_eq_true. Qed.

Lemma exact_count_sym g a : exact_count g a = exact_count a g.
Proof.
  unfold exact_count. revert a. induction g as [|x g IH]; intros [|y a]; simpl; try done.
  rewrite IH. f_equal. bdec; congruence.
Qed.

(** [present_count] counts the colours of [g] that occur in [a]; when
    neither code repeats a colour it is the size of their intersection,
    hence symmetric. *)
Lemma present_count_sym g a :
  NoDup g -> NoDup a -> present_count g a = present_count a g.
Proof.
  intros Hg Ha. unfold present_count, py_in. rewrite !count_true_filter. f_equal.
  apply NoDup_same_elems_length; try by apply NoDup_filter_bool.
  intros x. rewrite !elem_of_filter_bool, !bool_decide_eq_true. tauto.
Qed.

Lemma exact_count_full g a :
  length g = length a -> exact_count g a = Z.of_nat (length a) -> g = a.
Proof.
  unfold exact_count. revert a. induction g as [|x g IH]; intros [|y a] Hlen Hc; simpl in *; try done.
  pose proof (count_true_bounds (map (fun '(g0, a0) => g0 == a0) (combine g a))) as Hb.
  rewrite length_map, length_combine in Hb.
  case_bool_decide as Hxy.
  - subst. f_equal. apply IH; lia.
  - lia.
Qed.

(** Two codes of the same length that agree on all positions but one
    differ at exactly one position [k]. *)
Lemma exact_count_one_off g a :
  length g = length a -> exact_count g a = (Z.of_nat (length a) - 1)%Z ->
  exists k x y, g !! k = Some x /\ a !! k = Some y /\ x <> y /\
    forall i, i <> k -> g !! i = a !! i.
Proof.
  unfold exact_count. revert a. induction g as [|x g IH]; intros [|y a] Hlen Hc; cbn in *; try lia.
  case_bool_decide as Hxy.
  - subst. destruct (IH a) as (k & x' & y' & Hg & Ha & Hne & Hi); [lia | lia |].
    exists (S k), x', y'. do 3 (split; [done|]). intros [|i] Hik; [done|]. apply Hi. lia.
  - assert (g = a) as ->.
    { apply (exact_count_full g a); [lia|]. unfold exact_count. lia. }
    exists 0, x, y. do 3 (split; [done|]). intros [|i] Hik; [lia | done].
Qed.

(** A guess without repeated colours all of whose colours occur in the
    answer cannot agree with it on all positions but one: the colour at
    the odd position sits elsewhere in the answer, where the guess holds
    it already. *)
Lemma present_full_not_one_off g a :
  NoDup g -> length g = length a -> present_count g a = Z.of_nat (length g) ->
  exact_count g a <> (Z.of_nat (length a) - 1)%Z.
Proof.
  intros Hnd Hlen Hp Hc. destruct (exact_count_one_off g a Hlen Hc) as (k & x & y & Hg & Ha & Hne & Hi).
  assert (x ∈ a) as [m Hm]%list_elem_of_lookup.
  { apply (bool_decide_eq_true_1 _), (count_true_all_inv (fun c => py_in c a) g Hp).
    by eapply list_elem_of_lookup_2. }
  destruct (decide (m = k)) as [-> | Hmk]; [congruence|].
  rewrite <- (Hi m Hmk) in Hm. apply Hmk. by eapply NoDup_lookup.
Qed.

Lemma agreeing_positions_cons x g y a :
  length (agreeing_positions (x :: g) (y :: a)) =
  ((if x == y then 1 else 0) + length (agreeing_positions g a))%nat.
Proof.
  unfold agreeing_positions. cbn [length min seq List.filter].
  rewrite <- seq_shift, filter_map_swap.
  case_bool_decide as H1; case_bool_decide as H2; cbn [length]; rewrite length_map;
    cbn in H1; first [reflexivity | congruence].
Qed.

Lemma exact_count_agreeing g a :
  exact_count g a = Z.of_nat (length (agreeing_positions g a)).
Proof.
  unfold exact_count. revert a. induction g as [|x g IH]; intros [|y a]; try done.
  rewrite agreeing_positions_cons. cbn [combine map count_true]. rewrite IH.
  destruct (x == y); lia.
Qed.

(** [zip] stops at the guess's end: only the first [len(guess)] colours
    of the answer take part in the exact count, and the presence test
    depends only on the answer's set of colours. *)
Lemma exact_count_take g a : exact_count g a = exact_count g (take (length g) a).
Proof.
  unfold exact_count. revert a. induction g as [|x g IH]; intros [|y a]; try done.
  cbn [combine map count_true length take]. by rewrite IH.
Qed.

Lemma score_guess_take g a :
  (forall c, c ∈ a -> c ∈ take (length g) a) -> score_guess g a = score_guess g (take (length g) a).
Proof.
  intros Hsub. rewrite !score_guess_fields, <- exact_count_take.
  assert (present_count g a = present_count g (take (length g) a)) as ->; [|done].
  unfold present_count, py_in. f_equal. apply map_ext. intros x. apply bool_decide_ext.
  split; [apply Hsub | apply subseteq_take].
Qed.

Lemma length_filter_seq_S (p : nat -> bool) (n : nat) :
  length (List.filter p (seq 0 (S n))) =
  ((if p 0 then 1 else 0) + length (List.filter (fun i => p (S i)) (seq 0 n)))%nat.
Proof.
  cbn [seq List.filter]. rewrite <- seq_shift, filter_map_swap.
  destruct (p 0); cbn [length]; by rewrite length_map.
Qed.

(** The almost-correct count, generalised: presence is tested in [A],
    positions are compared with [b], a part of [A]. *)
Lemma present_minus_exact (g b A : Code) :
  (forall x, x ∈ b -> x ∈ A) ->
  (present_count g A - exact_count g b)%Z =
  Z.of_nat (length (List.filter (fun i => match g !! i with
                        | Some x => (py_in x A && negb (Some x == b !! i))%bool
                        | None => false
                        end) (seq 0 (length g)))).
Proof.
  revert b. induction g as [|x g IH]; intros b Hb; [done|].
  cbn [length]. rewrite length_filter_seq_S. simpl (_ !! _).
  unfold present_count, exact_count in *. cbn [map count_true].
  destruct b as [|y b].
  - specialize (IH [] ltac:(set_solver)).
    erewrite List.filter_ext in IH; [| intros i; rewrite lookup_nil; reflexivity].
    erewrite List.filter_ext; [| intros i; rewrite lookup_nil; reflexivity].
    rewrite combine_nil in IH. cbn [combine map count_true] in *.
    rewrite Nat2Z.inj_add, <- IH. case_bool_decide as Hn; [done|]. destruct (py_in x A); cbn; lia.
  - specialize (IH b ltac:(set_solver)). cbn [combine map count_true lookup list_lookup] in *.
    lazymatch type of IH with _ = Z.of_nat (length ?F) =>
      lazymatch goal with |- context [length (List.filter ?p (seq 0 (length g)))] =>
        change (length (List.filter p (seq 0 (length g)))) with (length F) end end.
    rewrite Nat2Z.inj_add, <- IH. unfold py_in. destruct (decide (x = y)) as [<- | Hxy].
    + rewrite !bool_decide_true by (done || apply Hb; set_solver). cbn. lia.
    + rewrite (bool_decide_false (x = y)), (bool_decide_false (Some x = Some y)) by congruence.
      destruct (bool_decide (x ∈ A)); cbn; lia.
Qed.

(** No colour of the guess occurs in the answer iff none is counted
    present. *)
Lemma present_count_zero g a : present_count g a = 0%Z <-> forall x, x ∈ g -> x ∉ a.
Proof.
  unfold present_count, py_in. induction g as [|y g IH]; cbn [map count_true]; [set_solver|].
  pose proof (count_true_nonneg (map (fun x => bool_decide (x ∈ a)) g)) as Hn.
  case_bool_decide as Hy.
  - split; [lia|]. intros H. exfalso. apply (H y); [set_solver | done].
  - rewrite Z.add_0_l, IH. split; intros H x Hx; [|apply H; set_solver].
    apply elem_of_cons in Hx as [-> | Hx]; [done | by apply H].
Qed.

(** ** The classic Mastermind score

    The scoring the spec names as the multiplicity-aware replacement
    (section 9): the exact matches, and for the rest the sum over all
    colours of the smaller of the colour's counts in the two codes,
    less the exact matches. *)

Definition count_color (c : Colors) (l : Code) : Z :=
  count_true (map (fun x => x == c) l).

Definition sum_Z (l : list Z) : Z := foldr Z.add 0%Z l.

Definition common_count (guess answer : Code) : Z :=
  sum_Z (map (fun c => Z.min (count_color c guess) (count_color c answer)) Colors_members).

Definition score_classic (guess answer : Code) : Score :=
  mkScore (exact_count guess answer) (common_count guess answer - exact_count guess answer).

Lemma count_color_absent c l : c ∉ l -> count_color c l = 0%Z.
Proof. intros Hc. apply count_true_none. intros x Hx. apply bool_decide_eq_false. set_solver. Qed.

Lemma count_color_present c l : c ∈ l -> (1 <= count_color c l)%Z.
Proof.
  unfold count_color. induction l as [|x l IH]; intros Hc; [set_solver|].
  cbn [map count_true]. pose proof (count_true_nonneg (map (fun x0 => x0 == c) l)).
  case_bool_decide; [lia|]. apply elem_of_cons in Hc as [->|Hc]; [done|]. specialize (IH Hc). lia.
Qed.

Lemma count_color_NoDup c l :
  NoDup l -> count_color c l = if py_in c l then 1%Z else 0%Z.
Proof.
  unfold py_in. intros Hl. case_bool_decide as Hc; [|by apply count_color_absent].
  induction Hl as [|x l Hx Hl IH]; [set_solver|].
  unfold count_color at 1. cbn [map count_true]. fold (count_color c l).
  case_bool_decide; subst.
  - rewrite (count_color_absent c l Hx). lia.
  - apply elem_of_cons in Hc as [->|Hc]; [done|]. rewrite IH by done. lia.
Qed.

Lemma sum_Z_indicator {A} (b : A -> bool) (l : list A) :
  sum_Z (map (fun x => if b x then 1%Z else 0%Z) l) = count_true (map b l).
Proof. induction l as [|x l IH]; cbn; [done|]. rewrite <- IH. reflexivity. Qed.

(** On a guess without repeated colours the colour-wise minimum is an
    indicator of the colour being in both codes. *)
Lemma common_count_NoDup g a :
  NoDup g -> common_count g a = present_count g a.
Proof.
  intros Hg. unfold common_count.
  erewrite map_ext_in with (g := fun c => if py_in c g && py_in c a then 1%Z else 0%Z).
  2:{ intros c _. rewrite count_color_NoDup by done.
      pose proof (count_true_nonneg (map (fun x => x == c) a)) as Hn. fold (count_color c a) in Hn.
      unfold py_in. case_bool_decide as Hcg; case_bool_decide as Hca; cbn [andb]; try lia.
      - pose proof (count_color_present c a Hca). lia.
      - rewrite count_color_absent by done. lia. }
  rewrite sum_Z_indicator. unfold present_count. rewrite !count_true_filter. f_equal.
  apply NoDup_same_elems_length; try apply NoDup_filter_bool; auto with mastermind.
  intros x. rewrite !elem_of_filter_bool, andb_true_iff. unfold py_in. rewrite !bool_decide_eq_true.
  pose proof (Colors_members_complete x). tauto.
Qed.

Lemma count_color_cons c x l :
  count_color c (x :: l) = ((if x == c then 1 else 0) + count_color c l)%Z.
Proof. reflexivity. Qed.

Lemma count_color_nonneg c l : (0 <= count_color c l)%Z.
Proof. apply count_true_nonneg. Qed.

(** *** Sums over the colours *)

Lemma sum_Z_map_add {A} (f h : A -> Z) (l : list A) :
  sum_Z (map (fun x => f x + h x)%Z l) = (sum_Z (map f l) + sum_Z (map h l))%Z.
Proof. unfold sum_Z. induction l as [|x l IH]; cbn; lia. Qed.

Lemma sum_Z_le {A} (f h : A -> Z) (l : list A) :
  (forall x, x ∈ l -> f x <= h x)%Z -> (sum_Z (map f l) <= sum_Z (map h l))%Z.
Proof.
  unfold sum_Z. induction l as [|x l IH]; intros H; cbn; [lia|].
  assert (f x <= h x)%Z by (apply H; set_solver).
  assert (foldr Z.add 0%Z (map f l) <= foldr Z.add 0%Z (map h l))%Z by (apply IH; intros; apply H; set_solver).
  lia.
Qed.

(** Termwise below, equal sums: equal terms. *)
Lemma sum_Z_eq_iff {A} (f h : A -> Z) (l : list A) :
  (forall x, x ∈ l -> f x <= h x)%Z ->
  sum_Z (map f l) = sum_Z (map h l) <-> forall x, x ∈ l -> f x = h x.
Proof.
  intros H. induction l as [|x l IH]; [split; [set_solver | done]|].
  assert (Hx : (f x <= h x)%Z) by (apply H; set_solver).
  assert (Hl : forall y, y ∈ l -> (f y <= h y)%Z) by (intros; apply H; set_solver).
  pose proof (sum_Z_le f h l Hl) as Hs. specialize (IH Hl). unfold sum_Z in *. cbn. split.
  - intros Heq y [-> | Hy]%elem_of_cons; [lia|]. apply IH; [lia | done].
  - intros Hall. assert (f x = h x) by (apply Hall; set_solver).
    assert (foldr Z.add 0%Z (map f l) = foldr Z.add 0%Z (map h l)) by (apply IH; intros; apply Hall; set_solver).
    lia.
Qed.

(** The sum of a term that is zero but at one colour. *)
Lemma sum_Z_single (x : Colors) (f : Colors -> Z) :
  sum_Z (map (fun c => if x == c then f c else 0%Z) Colors_members) = f x.
Proof.
  destruct x; unfold sum_Z, Colors_members; cbv [bool_decide decide_rel Colors_eq_dec]; cbn; lia.
Qed.

(** [present_count] regrouped by colour: every colour of the answer
    contributes all its occurrences in the guess. *)
Lemma present_count_by_colour g a :
  present_count g a =
  sum_Z (map (fun c => if py_in c a then count_color c g else 0%Z) Colors_members).
Proof.
  induction g as [|x g IH].
  - rewrite (map_ext _ (fun _ => 0%Z)) by (intros c; by destruct (py_in c a)). reflexivity.
  - rewrite (map_ext _ (fun c => (if x == c then (if py_in c a then 1 else 0) else 0) +
                                 (if py_in c a then count_color c g else 0))%Z)
      by (intros c; rewrite count_color_cons; destruct (py_in c a), (x == c); cbn; lia).
    rewrite sum_Z_map_add, sum_Z_single, <- IH. reflexivity.
Qed.

(** Colour by colour, the classic term is at most the Python one, with
    equality iff the guess does not hold the colour more often than the
    answer. *)
Lemma min_le_present c g a :
  (Z.min (count_color c g) (count_color c a) <= if py_in c a then count_color c g else 0)%Z.
Proof.
  pose proof (count_color_nonneg c g). unfold py_in. case_bool_decide as Hc; [lia|].
  rewrite (count_color_absent c a) by done. lia.
Qed.

Lemma min_eq_present c g a :
  Z.min (count_color c g) (count_color c a) = (if py_in c a then count_color c g else 0)%Z <->
  (c ∈ a -> (count_color c g <= count_color c a)%Z).
Proof.
  pose proof (count_color_nonneg c g). unfold py_in. case_bool_decide as Hc.
  - split; [intros Heq _; lia | intros Hle; specialize (Hle Hc); lia].
  - rewrite (count_color_absent c a) by done. split; [done | lia].
Qed.

(** *** Transpositions *)

Lemma present_count_perm g g' a : g ≡ₚ g' -> present_count g a = present_count g' a.
Proof. unfold present_count. induction 1; cbn [map count_true]; lia. Qed.

(** Exchanging the colours at two positions of a code without repeated
    colours makes it disagree with the code at exactly those two
    positions. *)
Lemma transposition_disagree (a : Code) i j x y k :
  NoDup a -> a !! i = Some x -> a !! j = Some y -> i <> j ->
  <[i:=y]> (<[j:=x]> a) !! k <> a !! k <-> k = i \/ k = j.
Proof.
  intros Hnd Hi Hj Hij. pose proof (lookup_lt_Some _ _ _ Hi). pose proof (lookup_lt_Some _ _ _ Hj).
  assert (Hxy : x <> y) by (intros ->; apply Hij; by eapply NoDup_lookup).
  destruct (decide (k = i)) as [-> | Hki].
  - rewrite list_lookup_insert_eq, Hi by (rewrite length_insert; lia). split; [auto | congruence].
  - rewrite list_lookup_insert_ne by congruence. destruct (decide (k = j)) as [-> | Hkj].
    + rewrite list_lookup_insert_eq, Hj by lia. split; [auto | congruence].
    + rewrite list_lookup_insert_ne by congruence. split; [done | intros [|]; contradiction].
Qed.

#[export] Hint Resolve exact_count_le_length present_count_le_length : mastermind.

(** ** Properties of [score_guess] *)

(** C11: [num_correct] is the number of index positions where the guess
    and the answer hold the same colour. *)
Theorem score_guess_num_correct (guess answer : Code) :
  num_correct (score_guess guess answer) =
  Z.of_nat (length (agreeing_positions guess answer)).
Proof.
  rewrite score_guess_fields. apply exact_count_agreeing.
Qed.

(** C13: [num_almost_correct] is the number of positions of the guess
    whose colour occurs in the answer but not at that position, for
    every guess and answer, repeated colours included. *)
Theorem score_guess_num_almost_correct (guess answer : Code) :
  num_almost_correct (score_guess guess answer) =
  Z.of_nat (length (misplaced_positions guess answer)).
Proof. rewrite score_guess_fields. cbn [num_almost_correct]. by apply present_minus_exact. Qed.

(** C10: bounds of the score: [0 <= num_correct <= len(guess)], the
    almost-correct count is never negative, and the two counts together
    never exceed [len(guess)]. *)
Theorem score_guess_bounds (guess answer : Code) :
  (0 <= num_correct (score_guess guess answer) <= Z.of_nat (length guess) /\
   0 <= num_almost_correct (score_guess guess answer) /\
   num_correct (score_guess guess answer) + num_almost_correct (score_guess guess answer)
     <= Z.of_nat (length guess))%Z.
Proof.
  rewrite score_guess_fields. cbn [num_correct num_almost_correct].
  pose proof (exact_count_le_length guess answer).
  pose proof (present_count_le_length guess answer).
  pose proof (exact_count_le_present guess answer answer ltac:(done)). lia.
Qed.

(** C12: every code, repeated colours or not, scores all its positions
    exact and none almost against itself. *)
Theorem score_guess_self (a : Code) :
  score_guess a a = mkScore (Z.of_nat (length a)) 0.
Proof. rewrite score_guess_fields, exact_count_self, present_count_self. f_equal. lia. Qed.

(** C7: on codes without repeated colours the score does not depend on
    which code is the guess and which the answer. *)
Theorem score_guess_sym (g a : Code) :
  NoDup g -> NoDup a -> score_guess g a = score_guess a g.
Proof.
  intros Hg Ha. rewrite !score_guess_fields, (exact_count_sym g a), (present_count_sym g a) by done.
  reflexivity.
Qed.

#[export] Instance score_guess_laws : ScorerLaws score_guess.
Proof.
  split.
  - intros g a Hlen Hc. apply exact_count_full; [done|]. by rewrite score_guess_fields in Hc.
  - intros a. by rewrite score_guess_fields, exact_count_self.
  - intros g a Hg Ha. by rewrite !score_guess_fields, (exact_count_sym g a), (present_count_sym g a).
Qed.

(** C8: on every guess without repeated colours, and every answer, the
    Python formula computes the classic Mastermind score. *)
Theorem score_guess_classic (guess answer : Code) :
  NoDup guess -> score_guess guess answer = score_classic guess answer.
Proof.
  intros Hg. rewrite score_guess_fields. unfold score_classic. by rewrite common_count_NoDup.
Qed.

(** C9: with repeated colours the Python formula over-counts: its two
    counts together are never below the classic count of common colours
    with multiplicity, and equal it exactly when no colour of the answer
    occurs more often in the guess than in the answer.  (Four REDs
    against a code with one RED score one exact and three almost-correct
    pegs, where only one colour is common.) *)
Theorem score_guess_overcount (g a : Code) :
  (common_count g a <= num_correct (score_guess g a) + num_almost_correct (score_guess g a))%Z /\
  ((common_count g a = num_correct (score_guess g a) + num_almost_correct (score_guess g a))%Z <->
   forall c, c ∈ a -> (count_color c g <= count_color c a)%Z).
Proof.
  rewrite score_guess_fields. cbn [num_correct num_almost_correct].
  replace (exact_count g a + (present_count g a - exact_count g a))%Z with (present_count g a) by lia.
  rewrite present_count_by_colour. unfold common_count. split.
  - apply sum_Z_le. intros c _. apply min_le_present.
  - rewrite sum_Z_eq_iff by (intros c _; apply min_le_present). split.
    + intros H c Hc. apply min_eq_present; [apply H, Colors_members_complete | done].
    + intros H c _. apply min_eq_present, H.
Qed.

(** C19: exchanging the colours at two positions of a code without
    repeated colours gives a guess that scores all but those two
    positions exact and two almost correct; the spec's scenario of two
    swapped colours is the case of four colours, (2, 2). *)
Theorem score_guess_transposition (a : Code) (i j : nat) (x y : Colors) :
  NoDup a -> a !! i = Some x -> a !! j = Some y -> i <> j ->
  score_guess (<[i:=y]> (<[j:=x]> a)) a = mkScore (Z.of_nat (length a) - 2) 2.
Proof.
  intros Hnd Hi Hj Hij. pose proof (lookup_lt_Some _ _ _ Hi). pose proof (lookup_lt_Some _ _ _ Hj).
  set (g := <[i:=y]> (<[j:=x]> a)).
  assert (Hlen : length g = length a) by (unfold g; by rewrite !length_insert).
  assert (Hdis : length (List.filter (fun k => negb (g !! k == a !! k)) (seq 0 (length a))) = 2).
  { transitivity (length [i; j]); [|done].
    apply NoDup_same_elems_length.
    - apply NoDup_filter_bool, NoDup_seq.
    - constructor; [set_solver | apply NoDup_singleton].
    - intros k. rewrite elem_of_filter_bool, elem_of_seq, negb_true_iff, bool_decide_eq_false.
      unfold g. rewrite transposition_disagree by done. rewrite !elem_of_cons, elem_of_nil. intuition lia. }
  pose proof (length_filter_negb (fun k => g !! k == a !! k) (seq 0 (length a))) as Hsplit.
  rewrite length_seq in Hsplit.
  rewrite score_guess_fields, exact_count_agreeing. unfold agreeing_positions.
  rewrite Hlen, Nat.min_id.
  rewrite (present_count_perm g a a) by (unfold g; by apply Permutation_insert_swap).
  rewrite present_count_self. f_equal; lia.
Qed.

(** C27: a guess scores [(0, 0)] exactly when none of its colours occurs
    in the answer (the spec's scenario of disjoint codes, for every guess
    and answer). *)
Theorem score_guess_disjoint (g a : Code) :
  score_guess g a = mkScore 0 0 <-> (forall x, x ∈ g -> x ∉ a).
Proof.
  rewrite score_guess_fields, <- present_count_zero.
  pose proof (exact_count_le_present g a a ltac:(done)). pose proof (exact_count_le_length g a).
  split; [intros Heq; injection Heq; lia|].
  intros Hp. assert (exact_count g a = 0%Z) as -> by lia. by rewrite Hp.
Qed.

(** ** Witnesses *)

Lemma score_guess_sym_witness :
  NoDup [RED; GREEN; BLUE; YELLOW] /\ NoDup [YELLOW; PINK; RED; CYAN] /\
  score_guess [RED; GREEN; BLUE; YELLOW] [YELLOW; PINK; RED; CYAN] =
  score_guess [YELLOW; PINK; RED; CYAN] [RED; GREEN; BLUE; YELLOW].
Proof.
  assert (H1 : NoDup [RED; GREEN; BLUE; YELLOW]) by (apply (bool_decide_unpack _); vm_compute; reflexivity).
  assert (H2 : NoDup [YELLOW; PINK; RED; CYAN]) by (apply (bool_decide_unpack _); vm_compute; reflexivity).
  split; [exact H1|]. split; [exact H2|]. exact (score_guess_sym _ _ H1 H2).
Defined.

Lemma score_guess_classic_witness :
  NoDup [RED; GREEN; BLUE; YELLOW] /\
  score_guess [RED; GREEN; BLUE; YELLOW] [GREEN; GREEN; RED; CYAN] =
  score_classic [RED; GREEN; BLUE; YELLOW] [GREEN; GREEN; RED; CYAN].
Proof.
  assert (H1 : NoDup [RED; GREEN; BLUE; YELLOW]) by (apply (bool_decide_unpack _); vm_compute; reflexivity).
  split; [exact H1|]. exact (score_guess_classic _ _ H1).
Defined.

(** The spec's scenario: GREEN and BLUE exchanged in RGBY. *)
Lemma score_guess_transposition_witness :
  NoDup [RED; GREEN; BLUE; YELLOW] /\
  score_guess (<[1:=BLUE]> (<[2:=GREEN]> [RED; GREEN; BLUE; YELLOW])) [RED; GREEN; BLUE; YELLOW] =
    mkScore 2 2.
Proof.
  assert (H1 : NoDup [RED; GREEN; BLUE; YELLOW]) by (apply (bool_decide_unpack _); vm_compute; reflexivity).
  split; [exact H1|].
  exact (score_guess_transposition [RED; GREEN; BLUE; YELLOW] 1 2 GREEN BLUE H1 eq_refl eq_refl ltac:(lia)).
Defined.

End Scoring.
