(* ===== verification/Candidates.v ===== *)
(** The candidate enumeration of src/mastermind.py:
    [all_possible_solutions()] (lines 59-60) is
    [itertools.permutations(Colors, CODE_LEN)].

    [itertools] is a library the program calls, so it is modelled from
    its documentation: [itertools.product(range(n), repeat=r)] lists the
    index tuples in lexicographic order, and [permutations] keeps those
    with [len(set(indices)) == r] and maps each index to the pool.
    The recursive enumeration [perms_avoid] (each position picks, in pool
    order, an element not picked before) is proved equal to it; the
    membership and duplicate-freedom theorems are proved on it, and the
    order of the candidates is the lexicographic order [code_ltb] of the
    colours' values. *)

From stdpp Require Import sorting.
From S2P Require Import Prelude Types.

Section Itertools.
Context {A : Type} `{EqDecision A}.

(** [itertools.product(pool, repeat=r)]: the first position varies
    slowest. *)
Fixpoint product (pool : list A) (r : nat) : list (list A) :=
  match r with
  | 0 => [[]]
  | S r' => flat_map (fun x => map (cons x) (product pool r')) pool
  end.

(** The direct enumeration of the [r]-permutations of [pool] that avoid
    the elements of [used]. *)
Fixpoint perms_avoid (pool used : list A) (r : nat) : list (list A) :=
  match r with
  | 0 => [[]]
  | S r' =>
      flat_map (fun x =>
        if bool_decide (x ∈ used) then []
        else map (cons x) (perms_avoid pool (x :: used) r')) pool
  end.

(** A tuple that repeats no element and avoids [used]. *)
Definition fresh_for (used t : list A) : Prop :=
  NoDup t /\ Forall (fun y => y ∉ used) t.

Lemma fresh_for_nil used : fresh_for used [].
Proof. split; constructor. Qed.

Lemma fresh_for_cons used x t :
  fresh_for used (x :: t) <-> (x ∉ used) /\ fresh_for (x :: used) t.
Proof.
  unfold fresh_for. rewrite NoDup_cons, !Forall_cons, !Forall_forall. set_solver.
Qed.

Lemma elem_of_product pool r t :
  t ∈ product pool r <-> length t = r /\ (forall x, x ∈ t -> x ∈ pool).
Proof.
  revert t. induction r as [|r IH]; intros t; simpl.
  - split; [intros ->%list_elem_of_singleton; set_solver|].
    intros [Hl _]. destruct t; [set_solver | discriminate].
  - rewrite elem_of_flat_map. split.
    + intros (x & Hx & (t' & -> & Ht')%list_elem_of_fmap).
      apply IH in Ht' as [Hl Hin]. simpl. split; [lia | set_solver].
    + intros [Hl Hin]. destruct t as [|x t]; [discriminate|].
      exists x. split; [set_solver|]. apply list_elem_of_fmap. exists t.
      split; [done|]. apply IH. simpl in Hl. split; [lia | set_solver].
Qed.

Lemma NoDup_product pool r : NoDup pool -> NoDup (product pool r).
Proof.
  intros Hp. induction r as [|r IH]; simpl; [apply NoDup_singleton|].
  apply NoDup_flat_map; [done | intros; by apply NoDup_map_cons |].
  intros x y z _ _ (? & -> & _)%list_elem_of_fmap (? & ? & _)%list_elem_of_fmap. congruence.
Qed.

(** Filtering the product by freshness is the recursive enumeration. *)
Lemma filter_product_fresh pool used r :
  List.filter (fun t => bool_decide (fresh_for used t)) (product pool r) =
  perms_avoid pool used r.
Proof.
  revert used. induction r as [|r IH]; intros used; cbn [product perms_avoid].
  - cbn [List.filter]. rewrite bool_decide_true; [done | apply fresh_for_nil].
  - rewrite filter_flat_map. apply flat_map_ext_elem. intros x _.
    rewrite filter_map_swap. case_bool_decide as Hx.
    + erewrite List.filter_ext with (g := fun _ => false).
      * clear. induction (product pool r); simpl; done.
      * intros t. apply bool_decide_eq_false. rewrite fresh_for_cons. tauto.
    + rewrite <- IH. f_equal. apply List.filter_ext. intros t.
      apply bool_decide_ext. rewrite fresh_for_cons. tauto.
Qed.

(** Membership in the enumeration: exactly the tuples of length [r]
    drawn from the pool, without repetition, avoiding [used]. *)
Lemma elem_of_perms_avoid pool used r t :
  t ∈ perms_avoid pool used r <->
  length t = r /\ fresh_for used t /\ (forall x, x ∈ t -> x ∈ pool).
Proof.
  rewrite <- filter_product_fresh, elem_of_filter_bool, elem_of_product, bool_decide_eq_true.
  tauto.
Qed.

Lemma NoDup_perms_avoid pool used r : NoDup pool -> NoDup (perms_avoid pool used r).
Proof. intros Hp. rewrite <- filter_product_fresh. by apply NoDup_filter_bool, NoDup_product. Qed.

End Itertools.

Section ItertoolsMap.
Context {A B : Type} `{EqDecision A} `{EqDecision B}.

Lemma perms_avoid_map (f : A -> B) pool used r :
  (forall i j, i ∈ pool -> j ∈ pool -> f i = f j -> i = j) ->
  (forall u, u ∈ used -> u ∈ pool) ->
  map (fun t => map f t) (perms_avoid pool used r) = perms_avoid (map f pool) (map f used) r.
Proof.
  intros Hinj. revert used. induction r as [|r IH]; intros used Hused; cbn [perms_avoid]; [done|].
  rewrite map_flat_map', flat_map_map'. apply flat_map_ext_elem. intros x Hx.
  assert (bool_decide (f x ∈ map f used) = bool_decide (x ∈ used)) as ->.
  { apply bool_decide_ext. split; [|intros; by apply list_elem_of_fmap_2].
    intros (u & Hfu & Hu)%list_elem_of_fmap. rewrite (Hinj x u); auto. }
  case_bool_decide; [done|].
  transitivity (map (cons (f x)) (map (fun t => map f t) (perms_avoid pool (x :: used) r))).
  - rewrite !map_map. reflexivity.
  - rewrite IH by set_solver. reflexivity.
Qed.

End ItertoolsMap.

Section Permutations.
Context {A : Type} `{EqDecision A} `{Inhabited A}.

(** [itertools.permutations(pool, r)], by the equivalent the library
    documents:
<<
    pool = tuple(iterable); n = len(pool)
    for indices in product(range(n), repeat=r):
        if len(set(indices)) == r:
            yield tuple(pool[i] for i in indices)
>> *)
Definition permutations (pool : list A) (r : nat) : list (list A) :=
  map (fun indices => map (fun i => pool !!! i) indices)
    (List.filter (fun indices => bool_decide (length (remove_dups indices) = r))
       (product (seq 0 (length pool)) r)).

Lemma map_lookup_total_seq (pool : list A) :
  map (fun i => pool !!! i) (seq 0 (length pool)) = pool.
Proof.
  induction pool as [|x pool IH]; [done|]. cbn [length seq map].
  rewrite <- seq_shift, map_map. f_equal.
  etransitivity; [|exact IH]. apply map_ext. reflexivity.
Qed.

Lemma lookup_total_inj (pool : list A) i j :
  NoDup pool -> i ∈ seq 0 (length pool) -> j ∈ seq 0 (length pool) ->
  pool !!! i = pool !!! j -> i = j.
Proof.
  intros Hp (_ & Hi)%elem_of_seq (_ & Hj)%elem_of_seq Hij.
  apply (NoDup_lookup pool i j (pool !!! i)); [done | |];
    rewrite list_lookup_lookup_total_lt by lia; congruence.
Qed.

(** On a pool without repetition, the documented
    [itertools.permutations] is the recursive enumeration. *)
Lemma permutations_perms_avoid (pool : list A) (r : nat) :
  NoDup pool -> permutations pool r = perms_avoid pool [] r.
Proof.
  intros Hp. unfold permutations.
  rewrite (List.filter_ext_in _ (fun t => bool_decide (fresh_for [] t))).
  - rewrite filter_product_fresh, perms_avoid_map.
    + by rewrite map_lookup_total_seq.
    + intros i j Hi Hj. by apply lookup_total_inj.
    + set_solver.
  - intros t Ht%list_elem_of_In. apply elem_of_product in Ht as [Hl _].
    apply bool_decide_ext. rewrite <- Hl, <- NoDup_length_remove_dups.
    unfold fresh_for. rewrite Forall_forall. set_solver.
Qed.

End Permutations.

(** ** The candidates of the program *)

(** [all_possible_solutions()] is [permutations(Colors, CODE_LEN)]. *)
Definition all_possible_solutions : list Code :=
  permutations Colors_members (Z.to_nat CODE_LEN).

(** The order the spec calls canonical: lexicographic in the positions
    of the colours in [list(Colors)], their values. *)
Fixpoint code_ltb (a b : Code) : bool :=
  match a, b with
  | [], [] => false
  | [], _ :: _ => true
  | _ :: _, [] => false
  | x :: a', y :: b' => Nat.ltb (Colors_value x) (Colors_value y) || ((x == y)%mm && code_ltb a' b')
  end.

Lemma all_possible_solutions_perms :
  all_possible_solutions = perms_avoid Colors_members [] 4.
Proof. vm_compute. reflexivity. Qed.

Lemma candidate_length (c : Code) : c ∈ all_possible_solutions -> length c = 4.
Proof. rewrite all_possible_solutions_perms, elem_of_perms_avoid. naive_solver. Qed.

Lemma candidate_NoDup (c : Code) : c ∈ all_possible_solutions -> NoDup c.
Proof. rewrite all_possible_solutions_perms, elem_of_perms_avoid. unfold fresh_for. naive_solver. Qed.

Lemma candidate_intro (c : Code) : length c = 4 -> NoDup c -> c ∈ all_possible_solutions.
Proof.
  intros Hl Hnd. rewrite all_possible_solutions_perms, elem_of_perms_avoid. unfold fresh_for.
  rewrite Forall_forall. split; [done|]. split; [split; [done | set_solver] |].
  intros x _. apply Colors_members_complete.
Qed.

Lemma candidates_NoDup : NoDup all_possible_solutions.
Proof. rewrite all_possible_solutions_perms. apply NoDup_perms_avoid, Colors_members_NoDup. Qed.

#[export] Hint Resolve candidate_length candidate_NoDup candidate_intro candidates_NoDup : mastermind.

(** C14: the candidates are exactly the codes of four pairwise distinct
    colours. *)
Theorem all_possible_solutions_spec (c : Code) :
  c ∈ all_possible_solutions <-> length c = 4 /\ NoDup c.
Proof.
  split; [intros Hc; split; [by apply candidate_length | by apply candidate_NoDup]|].
  intros [Hl Hnd]. by apply candidate_intro.
Qed.

(** C15: there are [8 * 7 * 6 * 5 = 1680] candidates, none listed
    twice. *)
Theorem all_possible_solutions_count :
  length all_possible_solutions = 1680 /\ NoDup all_possible_solutions.
Proof.
  split; [vm_compute; reflexivity | apply candidates_NoDup].
Qed.


Lemma Colors_value_inj (x y : Colors) : Colors_value x = Colors_value y -> x = y.
Proof. destruct x, y; cbn; congruence. Qed.

#[export] Instance code_ltb_trans : Transitive (fun a b => code_ltb a b = true).
Proof.
  intros a. induction a as [|x a IH]; intros [|y b] [|z c]; cbn [code_ltb]; try done.
  rewrite !orb_true_iff, !andb_true_iff, !Nat.ltb_lt, !bool_decide_eq_true.
  intros [Hxy | [-> Hab]] [Hyz | [-> Hbc]]; [left; lia | by left | by left | right].
  split; [done | by apply (IH b c)].
Qed.

(** C26: [all_possible_solutions()] lists the candidates in the canonical
    order of the spec: strictly increasing in the lexicographic order of
    the colours' positions in the enumeration, so the order is fixed and
    no candidate comes twice. *)
Theorem all_possible_solutions_sorted :
  StronglySorted (fun a b => code_ltb a b = true) all_possible_solutions.
Proof.
  apply Sorted_StronglySorted; [apply code_ltb_trans|].
  apply (bool_decide_unpack _). vm_compute. reflexivity.
Qed.
