(* ===== verification/Feedback.v ===== *)
(** The feedback [solve] can print.  On two candidates (four distinct
    colours each) [score_guess] returns one of fourteen scores: both
    counts non-negative, at most four pegs in all, and never three exact
    with one misplaced; each of the fourteen occurs.  The missing
    [(3, 1)] needs the guess to have no repeated colour (Scoring's
    [present_full_not_one_off]). *)

From S2P Require Import Prelude Types Scoring Candidates.
Import Scoring.

Open Scope mm_scope.

(** The scores of the classic four-peg game without repeated colours. *)
Definition feasible_scores : list Score :=
  [mkScore 0 0; mkScore 0 1; mkScore 0 2; mkScore 0 3; mkScore 0 4;
   mkScore 1 0; mkScore 1 1; mkScore 1 2; mkScore 1 3;
   mkScore 2 0; mkScore 2 1; mkScore 2 2;
   mkScore 3 0; mkScore 4 0].

(** A score is reached by some guess against the fixed answer
    [RED GREEN BLUE YELLOW]. *)
Definition attained (s : Score) : bool :=
  existsb (fun g => score_guess g [RED; GREEN; BLUE; YELLOW] == s) all_possible_solutions.

Lemma elem_of_feasible_scores (b w : Z) :
  (0 <= b)%Z -> (0 <= w)%Z -> (b + w <= 4)%Z -> mkScore b w <> mkScore 3 1 ->
  mkScore b w ∈ feasible_scores.
Proof.
  intros Hb Hw Hs Hne.
  assert (b = 0 \/ b = 1 \/ b = 2 \/ b = 3 \/ b = 4)%Z as Hb' by lia.
  assert (w = 0 \/ w = 1 \/ w = 2 \/ w = 3 \/ w = 4)%Z as Hw' by lia.
  destruct Hb' as [->|[->|[->|[->| ->]]]], Hw' as [->|[->|[->|[->| ->]]]];
    try lia; try (exfalso; by apply Hne); apply (bool_decide_unpack _); vm_compute; reflexivity.
Qed.

Lemma score_guess_candidates_feasible (g a : Code) :
  g ∈ all_possible_solutions -> a ∈ all_possible_solutions -> score_guess g a ∈ feasible_scores.
Proof.
  intros Hg Ha. rewrite score_guess_fields.
  pose proof (exact_count_le_length g a). pose proof (present_count_le_length g a).
  pose proof (exact_count_le_present g a a ltac:(done)).
  pose proof (candidate_length g Hg). pose proof (candidate_length a Ha).
  pose proof (present_full_not_one_off g a (candidate_NoDup g Hg) ltac:(congruence)).
  apply elem_of_feasible_scores; try lia.
  intros [= Hb Hw]. replace (length g) with 4 in * by done. replace (length a) with 4 in *. lia.
Qed.

Lemma feasible_attained : forallb attained feasible_scores = true.
Proof. vm_compute. reflexivity. Qed.

(** C24: the values of [score_guess] on two candidates are exactly the
    fourteen feasible scores: non-negative counts with at most four pegs
    in all, never three exact and one misplaced. *)
Theorem score_guess_range (s : Score) :
  s ∈ feasible_scores <->
  exists g a, g ∈ all_possible_solutions /\ a ∈ all_possible_solutions /\ score_guess g a = s.
Proof.
  split.
  - intros Hs. pose proof (proj1 (forallb_forall _ _) feasible_attained s (proj1 (list_elem_of_In _ _) Hs)) as Ht.
    apply existsb_exists in Ht as (g & Hg & Hgs). bdec.
    exists g, [RED; GREEN; BLUE; YELLOW]. split; [by apply list_elem_of_In|].
    split; [apply (bool_decide_unpack _); vm_compute; reflexivity | done].
  - intros (g & a & Hg & Ha & <-). by apply score_guess_candidates_feasible.
Qed.
