(* ===== verification/Shuffle.v ===== *)
(** [create_code()] of src/mastermind.py (lines 17-20) and the library
    call it makes, [random.shuffle(colors)].

    [random.shuffle] is CPython's ([Lib/random.py], 3.11 and later):
<<
        randbelow = self._randbelow
        for i in reversed(range(1, len(x))):
            j = randbelow(i + 1)
            x[i], x[j] = x[j], x[i]
>>
    It is modelled from that text.  The generator's hidden state is made
    explicit: [randbelow n] is an operation of an interface
    [RandomSource] on a state [R], returning the drawn index and the next
    state; its law ([RandomLaws]) is the contract of [_randbelow], a
    result below [n].  The in-place mutation of [colors] is the list
    returned with the state.

    The theorems: the shuffle is a permutation, so [create_code] returns a
    candidate; and with every sequence of [randbelow] results counted
    once (independent uniform draws), each candidate is returned by
    exactly 24 of the [8 * 7 * ... * 2 = 40320] sequences. *)

From stdpp Require Import gmap.
From S2P Require Import Prelude Types Candidates.

Open Scope mm_scope.

(** The generator of the [random] module, as far as [shuffle] uses it. *)
Class RandomSource (R : Type) := randbelow : nat -> R -> nat * R.

Class RandomLaws (R : Type) `{RandomSource R} : Prop :=
  randbelow_lt n r : 0 < n -> (randbelow n r).1 < n.

Section Shuffle.
Context {A : Type} `{Inhabited A} {R : Type} `{RandomSource R}.

(** [x[i], x[j] = x[j], x[i]]: the right side is evaluated first, then
    [x[i]] and [x[j]] are assigned in that order. *)
Definition swap (x : list A) (i j : nat) : list A :=
  <[j := x !!! i]> (<[i := x !!! j]> x).

(** The [for] loop over the indices [idx], threading the list and the
    generator. *)
Fixpoint shuffle_loop (idx : list nat) (x : list A) (r : R) : list A * R :=
  match idx with
  | [] => (x, r)
  | i :: idx' =>
      let '(j, r') := randbelow (i + 1) r in
      shuffle_loop idx' (swap x i j) r'
  end.

(** [random.shuffle(x)]: the loop over [reversed(range(1, len(x)))]. *)
Definition shuffle (x : list A) (r : R) : list A * R :=
  shuffle_loop (reverse (seq 1 (length x - 1))) x r.

End Shuffle.

(** [create_code()]: [colors = list(Colors)], [random.shuffle(colors)],
    [return colors[:CODE_LEN]]. *)
Definition create_code `{RandomSource R} (r : R) : Code * R :=
  let colors := Colors_members in
  let '(colors, r) := shuffle colors r in
  (take (Z.to_nat CODE_LEN) colors, r).

(** A generator given by the sequence of its draws, each reduced below
    the bound asked for. *)
#[export] Instance draws_source : RandomSource (list nat) := fun n ds =>
  match ds with
  | [] => (0, [])
  | d :: ds' => (d mod n, ds')
  end.

(** Every sequence of results of [randbelow n1], [randbelow n2], ...:
    the first draw varies slowest. *)
Fixpoint draw_sequences (ns : list nat) : list (list nat) :=
  match ns with
  | [] => [[]]
  | n :: ns' => d ← seq 0 n; (fun t => d :: t) <$> draw_sequences ns'
  end.

(** The bounds [shuffle] draws below on a list of eight: [8, 7, ..., 2]. *)
Definition shuffle_bounds : list nat := map S (reverse (seq 1 7)).

#[export] Instance Colors_countable : Countable Colors :=
  inj_countable Colors_value Colors_of_value (fun c => match c with
    | RED | GREEN | BLUE | YELLOW | WHITE | GREY | PINK | CYAN => eq_refl end).

(** How many elements of [l] each key [f x] has. *)
Definition tally {B K : Type} `{Countable K} (f : B -> K) (l : list B) : gmap K nat :=
  foldr (fun x m => <[f x := S (default 0 (m !! f x))]> m) ∅ l.

(** Every candidate has [k] in the tally [t]. *)
Definition counts_ok (t : gmap Code nat) (k : nat) : bool :=
  forallb (fun c => Nat.eqb (default 0 (t !! c)) k) all_possible_solutions.

(** ** The shuffle is a permutation *)

Section ShuffleLemmas.
Context {A : Type} `{Inhabited A} {R : Type} `{RandomLaws R}.

Lemma swap_length (x : list A) i j : length (swap x i j) = length x.
Proof. unfold swap. by rewrite !length_insert. Qed.

Lemma swap_perm (x : list A) i j : i < length x -> j < length x -> swap x i j ≡ₚ x.
Proof.
  intros Hi Hj. apply lookup_lt_is_Some_2 in Hi as [xi Hi], Hj as [xj Hj].
  unfold swap. rewrite !list_lookup_total_alt, Hi, Hj. cbn. by apply Permutation_insert_swap.
Qed.

Lemma shuffle_loop_perm idx (x : list A) (r : R) :
  Forall (fun i => i < length x) idx -> (shuffle_loop idx x r).1 ≡ₚ x.
Proof.
  revert x r. induction idx as [|i idx IH]; intros x r Hidx; [done|].
  apply Forall_cons in Hidx as [Hi Hidx]. cbn.
  pose proof (randbelow_lt (i + 1) r ltac:(lia)) as Hj.
  destruct (randbelow (i + 1) r) as [j r']. cbn in Hj.
  rewrite IH by (rewrite swap_length; exact Hidx). apply swap_perm; lia.
Qed.

Lemma shuffle_perm (x : list A) (r : R) : (shuffle x r).1 ≡ₚ x.
Proof.
  apply shuffle_loop_perm, Forall_forall. intros i Hi.
  apply elem_of_reverse, elem_of_seq in Hi. lia.
Qed.

End ShuffleLemmas.

#[export] Instance draws_laws : RandomLaws (list nat).
Proof. intros n [|d ds] Hn; cbn; [lia | apply Nat.mod_upper_bound; lia]. Qed.

Lemma tally_lookup {B K : Type} `{Countable K} (f : B -> K) (l : list B) (k : K) :
  default 0 (tally f l !! k) = length (List.filter (fun x => bool_decide (f x = k)) l).
Proof.
  induction l as [|x l IH]; cbn [tally foldr List.filter]; [by rewrite lookup_empty|].
  destruct (decide (f x = k)) as [<- | Hne].
  - rewrite lookup_insert_eq, bool_decide_true by done. cbn. f_equal. exact IH.
  - rewrite lookup_insert_ne, bool_decide_false by done. exact IH.
Qed.

Lemma counts_ok_spec (t : gmap Code nat) (k : nat) (c : Code) :
  counts_ok t k = true -> c ∈ all_possible_solutions -> default 0 (t !! c) = k.
Proof.
  unfold counts_ok. rewrite forallb_forall. intros Hok Hc%list_elem_of_In.
  by apply Nat.eqb_eq, Hok.
Qed.

Lemma create_code_counts :
  counts_ok (tally (fun ds => (create_code ds).1) (draw_sequences shuffle_bounds)) 24 = true.
Proof. vm_cast_no_check (eq_refl true). Qed.

(** C18: whatever the generator's state, [create_code] returns one of
    the candidates: the shuffle only permutes the eight colours, and the
    first four of them are distinct. *)
Theorem create_code_candidate `{RandomLaws R} (r : R) :
  (create_code r).1 ∈ all_possible_solutions.
Proof.
  unfold create_code. pose proof (shuffle_perm Colors_members r) as Hp.
  destruct (shuffle Colors_members r) as [colors r']. cbn in *. apply candidate_intro.
  - rewrite length_take, (Permutation_length Hp). reflexivity.
  - eapply sublist_NoDup; [|apply sublist_take]. rewrite Hp. apply Colors_members_NoDup.
Qed.

(** C25: with the results of [randbelow] uniform and independent,
    [create_code] draws the secret uniformly: of the 40320 sequences of
    draws [shuffle] can make on eight colours, each candidate is returned
    by exactly 24, that is with probability 1/1680. *)
Theorem create_code_uniform (c : Code) :
  c ∈ all_possible_solutions ->
  length (draw_sequences shuffle_bounds) = 40320 /\
  length (List.filter (fun ds => bool_decide ((create_code ds).1 = c))
            (draw_sequences shuffle_bounds)) = 24.
Proof.
  intros Hc. split; [apply Nat.eqb_eq; vm_compute; reflexivity|].
  rewrite <- tally_lookup. exact (counts_ok_spec _ 24 c create_code_counts Hc).
Qed.

(** ** Witnesses *)

Lemma create_code_candidate_witness :
  RandomLaws (list nat) /\ (create_code [3; 1; 4; 1; 5; 9; 2]).1 ∈ all_possible_solutions.
Proof. split; [exact draws_laws | exact (create_code_candidate [3; 1; 4; 1; 5; 9; 2])]. Defined.

Lemma create_code_uniform_witness :
  [PINK; GREEN; CYAN; WHITE] ∈ all_possible_solutions /\
  length (draw_sequences shuffle_bounds) = 40320 /\
  length (List.filter (fun ds => bool_decide ((create_code ds).1 = [PINK; GREEN; CYAN; WHITE]))
            (draw_sequences shuffle_bounds)) = 24.
Proof.
  assert (H : [PINK; GREEN; CYAN; WHITE] ∈ all_possible_solutions)
    by (apply (bool_decide_unpack _); vm_compute; reflexivity).
  split; [exact H | exact (create_code_uniform _ H)].
Defined.
