(* ===== verification/Clues.v ===== *)
(** The clue filter [solution_matches_clues] of src/mastermind.py (lines
    63-67).  The filter is written against any scoring function (the
    section variable [score_guess], which the program instantiates with
    [Scoring.score_guess]); the lemma that the secret passes the filter
    uses only the interface [ScorerLaws]. *)

From S2P Require Import Prelude Types Scoring.
Import Scoring.

Section Clues.
Context (score_guess : Code -> Code -> Score).

(** [for clue, score in clues: if score != score_guess(guess, clue):
    return False]; [return True] after the loop. *)
Fixpoint solution_matches_clues (guess : Code) (clues : list Clue) : bool :=
  match clues with
  | [] => true
  | (clue, score) :: rest =>
      if bool_decide (score <> score_guess guess clue) then false
      else solution_matches_clues guess rest
  end.

(** A guess is consistent with a clue when it would have received the
    clue's score had it been the secret. *)
Definition consistent_with (guess : Code) (c : Clue) : Prop :=
  score_guess guess c.1 = c.2.

(** C16: the filter accepts a guess exactly when the guess is consistent
    with every clue of the history; in particular every guess passes an
    empty history. *)
Theorem solution_matches_clues_spec (guess : Code) (clues : list Clue) :
  solution_matches_clues guess clues = true <-> Forall (consistent_with guess) clues.
Proof.
  induction clues as [|[clue score] clues IH]; cbn [solution_matches_clues].
  - split; constructor.
  - rewrite Forall_cons, <- IH. unfold consistent_with. cbn [fst snd].
    case_bool_decide as Hne.
    + split; [discriminate | intros [Heq _]; congruence].
    + split; [intros H; split; [|done]; apply dec_stable; congruence | tauto].
Qed.

Lemma solution_matches_clues_app (guess : Code) (h1 h2 : list Clue) :
  solution_matches_clues guess (h1 ++ h2) =
  solution_matches_clues guess h1 && solution_matches_clues guess h2.
Proof.
  induction h1 as [|[clue score] h1 IH]; cbn [app solution_matches_clues]; [done|].
  case_bool_decide; [done | exact IH].
Qed.

(** The clue the solver records for a guess against the secret. *)
Definition scored_against (answer : Code) (c : Clue) : Prop :=
  c.2 = score_guess c.1 answer.

Section WithLaws.
Context `{!ScorerLaws score_guess}.

(** The secret passes the filter on every history of clues scored
    against it, when no code involved repeats a colour: the score is
    symmetric there. *)
Lemma secret_matches_clues (answer : Code) (clues : list Clue) :
  NoDup answer ->
  Forall (fun c => NoDup c.1 /\ scored_against answer c) clues ->
  solution_matches_clues answer clues = true.
Proof.
  intros Ha Hcl. induction Hcl as [|[c s] clues [Hc Hs] Hcl IH]; cbn [solution_matches_clues]; [done|].
  unfold scored_against in Hs. cbn in Hs, Hc.
  rewrite bool_decide_false; [exact IH|]. rewrite Hs, (scorer_sym c answer) by done. tauto.
Qed.

End WithLaws.
End Clues.
