(* ===== verification/Solver.v ===== *)
(** The solver [solve(answer)] of src/mastermind.py (lines 70-86).

    [solve_loop] is the [for] loop over the candidates, threading the
    loop's mutable state [SolveState] (the list [clues], the counter
    [guess_num] and the lines printed so far); [solve_body] is one
    iteration up to the [break] check.  The loop ends in one of three
    ways ([LoopExit]): a candidate scored all positions exact ([Found],
    the [return solution]), [len(clues) == MAX_TRIES] ([Break]), or the
    candidates ran out ([Depleted]).

    The same solver as a small-step relation [step] on configurations
    [Cfg phase remaining state], with the phases of the spec's state
    machine ([Running], [Solved], [Exhausted], [DepletedP]); the
    executable loop is proved to reach, under [step], the configuration
    it returns ([solve_loop_refines]), and [step] is deterministic.
    Every step consumes one candidate ([step_remaining]), so a run is
    never longer than the candidates plus one.

    Everything is written against a scoring function [score_guess] (a
    section variable); the program's is [Scoring.score_guess]. *)

From S2P Require Import Prelude Types Scoring Candidates Clues.
Import Scoring.

Open Scope mm_scope.

Module Solver.

(** The mutable locals of [solve]: [clues], [guess_num], and the output
    written so far. *)
Record SolveState : Type := mkState {
  clues : list Clue;
  guess_num : Z;
  printed : list Line
}.

Inductive LoopExit : Type :=
| Found (solution : Code)
| Break
| Depleted.

(** [clues = []], [guess_num = 1]. *)
Definition solve_init : SolveState := mkState [] 1 [].

Definition print (l : Line) (st : SolveState) : SolveState :=
  mkState (clues st) (guess_num st) (printed st ++ [l]).

Section Solve.
Context (score_guess : Code -> Code -> Score).

(** One iteration of the loop body (lines 75-81):
<<
        if solution_matches_clues(solution, clues):
            score = score_guess(solution, answer)
            print(f"Guess #{guess_num}: ...")
            if score.num_correct == CODE_LEN:
                return solution
            clues.append((solution, score))
            guess_num += 1
>> *)
Definition solve_body (answer solution : Code) (st : SolveState) : option Code * SolveState :=
  if solution_matches_clues score_guess solution (clues st) then
    let score := score_guess solution answer in
    let st := print (GuessLine (guess_num st) solution score) st in
    if num_correct score == CODE_LEN then (Some solution, st)
    else (None, mkState (clues st ++ [(solution, score)]) (guess_num st + 1) (printed st))
  else (None, st).

(** The [for] loop (lines 74-83): the body, then
    [if len(clues) == MAX_TRIES: break]. *)
Fixpoint solve_loop (answer : Code) (sols : list Code) (st : SolveState) : LoopExit * SolveState :=
  match sols with
  | [] => (Depleted, st)
  | solution :: rest =>
      match solve_body answer solution st with
      | (Some s, st') => (Found s, st')
      | (None, st') =>
          if Z.of_nat (length (clues st')) == MAX_TRIES then (Break, st')
          else solve_loop answer rest st'
      end
  end.

(** [solve(answer)]: the loop over [all_possible_solutions()]; after a
    [break] or the end of the candidates it prints the failure line and
    returns [None]. *)
Definition solve (answer : Code) : option Code * list Line :=
  match solve_loop answer all_possible_solutions solve_init with
  | (Found s, st) => (Some s, printed st)
  | (_, st) => (None, printed st ++ [FailLine])
  end.

(** The loop looks at the secret only through the scores of the
    candidates it iterates over. *)
Lemma solve_loop_answer_ext (a1 a2 : Code) (sols : list Code) (st : SolveState) :
  (forall c, c ∈ sols -> score_guess c a1 = score_guess c a2) ->
  solve_loop a1 sols st = solve_loop a2 sols st.
Proof.
  revert st. induction sols as [|c rest IH]; intros st H; [done|]. cbn [solve_loop]. unfold solve_body.
  rewrite (H c) by set_solver.
  assert (IH' : forall st', solve_loop a1 rest st' = solve_loop a2 rest st')
    by (intros; apply IH; intros; apply H; set_solver).
  destruct (solution_matches_clues score_guess c (clues st)); [case_bool_decide|]; cbn;
    rewrite ?IH'; done.
Qed.

Lemma solve_answer_ext (a1 a2 : Code) :
  (forall c, c ∈ all_possible_solutions -> score_guess c a1 = score_guess c a2) ->
  solve a1 = solve a2.
Proof. intros H. unfold solve. by rewrite (solve_loop_answer_ext a1 a2). Qed.

(** ** The solver as a state machine *)

Inductive Phase : Type :=
| Running
| Solved (solution : Code)
| Exhausted
| DepletedP.

Inductive Config : Type :=
| Cfg (phase : Phase) (remaining : list Code) (st : SolveState).

Definition cfg_phase (c : Config) : Phase := let 'Cfg p _ _ := c in p.
Definition cfg_remaining (c : Config) : list Code := let 'Cfg _ r _ := c in r.
Definition cfg_state (c : Config) : SolveState := let 'Cfg _ _ st := c in st.

(** The state after a guess that is recorded as a clue. *)
Definition record_clue (st : SolveState) (c : Code) (s : Score) : SolveState :=
  mkState (clues st ++ [(c, s)]) (guess_num st + 1) (printed st ++ [GuessLine (guess_num st) c s]).

(** The transitions of section 4.4 of the spec: an inconsistent
    candidate is skipped; a consistent one is scored, printed, and
    either solves the game or becomes a clue, the twelfth clue
    exhausting the tries; no candidate left depletes the game. *)
Inductive step (answer : Code) : Config -> Config -> Prop :=
| step_skip c rest st :
    solution_matches_clues score_guess c (clues st) = false ->
    step answer (Cfg Running (c :: rest) st) (Cfg Running rest st)
| step_solved c rest st :
    solution_matches_clues score_guess c (clues st) = true ->
    num_correct (score_guess c answer) = CODE_LEN ->
    step answer (Cfg Running (c :: rest) st)
      (Cfg (Solved c) rest (print (GuessLine (guess_num st) c (score_guess c answer)) st))
| step_clue c rest st :
    solution_matches_clues score_guess c (clues st) = true ->
    num_correct (score_guess c answer) <> CODE_LEN ->
    (Z.of_nat (length (clues st)) + 1 < MAX_TRIES)%Z ->
    step answer (Cfg Running (c :: rest) st)
      (Cfg Running rest (record_clue st c (score_guess c answer)))
| step_exhausted c rest st :
    solution_matches_clues score_guess c (clues st) = true ->
    num_correct (score_guess c answer) <> CODE_LEN ->
    (Z.of_nat (length (clues st)) + 1 = MAX_TRIES)%Z ->
    step answer (Cfg Running (c :: rest) st)
      (Cfg Exhausted rest (record_clue st c (score_guess c answer)))
| step_depleted st :
    step answer (Cfg Running [] st) (Cfg DepletedP [] st).

Definition exit_phase (e : LoopExit) : Phase :=
  match e with
  | Found s => Solved s
  | Break => Exhausted
  | Depleted => DepletedP
  end.

(** The configurations reachable in a game against [answer] over the
    candidates [sols]. *)
Definition reachable (answer : Code) (sols : list Code) (cfg : Config) : Prop :=
  rtc (step answer) (Cfg Running sols solve_init) cfg.

Lemma step_running answer cfg cfg' : step answer cfg cfg' -> cfg_phase cfg = Running.
Proof. by destruct 1. Qed.

(** Every step consumes the candidate at the head of the iterator. *)
Lemma step_remaining answer cfg cfg' :
  step answer cfg cfg' -> cfg_remaining cfg' = drop 1 (cfg_remaining cfg).
Proof. by destruct 1. Qed.

Lemma nsteps_remaining answer n cfg cfg' :
  nsteps (step answer) n cfg cfg' -> cfg_remaining cfg' = drop n (cfg_remaining cfg).
Proof.
  induction 1 as [|n x y z Hxy _ IH]; [by rewrite drop_0|].
  rewrite IH, (step_remaining _ _ _ Hxy), drop_drop. done.
Qed.

(** The state machine is deterministic: a configuration has at most one
    successor. *)
Lemma step_det answer cfg cfg1 cfg2 :
  step answer cfg cfg1 -> step answer cfg cfg2 -> cfg1 = cfg2.
Proof. intros H1 H2. destruct H1; inversion H2; subst; congruence || lia. Qed.

(** The executable loop reaches, under [step], the configuration made of
    the phase of its exit and the state it returns. *)
Lemma solve_loop_steps (answer : Code) (sols : list Code) (st : SolveState) :
  (Z.of_nat (length (clues st)) < MAX_TRIES)%Z ->
  exists rem, rtc (step answer) (Cfg Running sols st)
    (Cfg (exit_phase (solve_loop answer sols st).1) rem (solve_loop answer sols st).2).
Proof.
  revert st. induction sols as [|c rest IH]; intros st Hlt; cbn [solve_loop].
  { exists []. apply rtc_once, step_depleted. }
  unfold solve_body. destruct (solution_matches_clues score_guess c (clues st)) eqn:Hm.
  - case_bool_decide as Hc.
    + exists rest. apply rtc_once. by apply step_solved.
    + cbn [clues print]. rewrite length_app. cbn [length]. case_bool_decide as Hmax.
      * exists rest. apply rtc_once. apply step_exhausted; [done | done | lia].
      * destruct (IH (record_clue st c (score_guess c answer))) as [rem Hrem].
        { cbn [record_clue clues]. rewrite length_app. cbn [length]. unfold MAX_TRIES in *. lia. }
        exists rem. eapply rtc_l; [apply step_clue; [done | done | unfold MAX_TRIES in *; lia]|].
        exact Hrem.
  - case_bool_decide as Hmax; [lia|].
    destruct (IH st Hlt) as [rem Hrem]. exists rem.
    eapply rtc_l; [by apply step_skip | exact Hrem].
Qed.

Lemma rtc_terminal_unique answer x y z :
  rtc (step answer) x y -> rtc (step answer) x z ->
  cfg_phase y <> Running -> cfg_phase z <> Running -> y = z.
Proof.
  intros Hy. revert z. induction Hy as [x|x x' y Hxx' Hx'y IH]; intros z Hz Hpy Hpz.
  - destruct Hz as [|x w z Hxw _]; [done|]. by apply step_running in Hxw.
  - destruct Hz as [|x w z Hxw Hwz]; [by apply step_running in Hxx'|].
    pose proof (step_det _ _ _ _ Hxx' Hxw) as <-. by apply IH.
Qed.

(** C5: the executable loop implements the state machine: from a running
    configuration with fewer than [MAX_TRIES] clues, the configuration
    made of the phase of the loop's exit and the state it returns is
    reachable by steps, and every final configuration reachable by steps
    has that phase and that state. *)
Theorem solve_loop_refines (answer : Code) (sols : list Code) (st : SolveState) :
  (Z.of_nat (length (clues st)) < MAX_TRIES)%Z ->
  (exists rem, rtc (step answer) (Cfg Running sols st)
     (Cfg (exit_phase (solve_loop answer sols st).1) rem (solve_loop answer sols st).2)) /\
  (forall cfg, rtc (step answer) (Cfg Running sols st) cfg -> cfg_phase cfg <> Running ->
     cfg_phase cfg = exit_phase (solve_loop answer sols st).1 /\
     cfg_state cfg = (solve_loop answer sols st).2).
Proof.
  intros Hlt. destruct (solve_loop_steps answer sols st Hlt) as [rem Hrem].
  split; [by exists rem|]. intros cfg Hcfg Hph.
  assert (exit_phase (solve_loop answer sols st).1 <> Running) as Hex
    by (destruct (solve_loop answer sols st).1; discriminate).
  by rewrite (rtc_terminal_unique _ _ _ _ Hcfg Hrem Hph Hex).
Qed.

End Solve.

(** ** Witnesses *)

Lemma solve_loop_refines_witness :
  (Z.of_nat (length (clues solve_init)) < MAX_TRIES)%Z /\
  (exists rem, rtc (step Scoring.score_guess [BLUE; RED; YELLOW; GREEN])
     (Cfg Running all_possible_solutions solve_init)
     (Cfg (exit_phase (solve_loop Scoring.score_guess [BLUE; RED; YELLOW; GREEN] all_possible_solutions solve_init).1)
        rem (solve_loop Scoring.score_guess [BLUE; RED; YELLOW; GREEN] all_possible_solutions solve_init).2)) /\
  (forall cfg, rtc (step Scoring.score_guess [BLUE; RED; YELLOW; GREEN])
     (Cfg Running all_possible_solutions solve_init) cfg -> cfg_phase cfg <> Running ->
     cfg_phase cfg = exit_phase (solve_loop Scoring.score_guess [BLUE; RED; YELLOW; GREEN] all_possible_solutions solve_init).1 /\
     cfg_state cfg = (solve_loop Scoring.score_guess [BLUE; RED; YELLOW; GREEN] all_possible_solutions solve_init).2).
Proof.
  assert (H : (Z.of_nat (length (clues solve_init)) < MAX_TRIES)%Z) by (vm_compute; reflexivity).
  split; [exact H | exact (solve_loop_refines _ _ _ _ H)].
Defined.

End Solver.
