(* ===== verification/SolverInv.v ===== *)
(** Invariants of the solver's state machine ([Solver.step]), proved by
    induction on the steps from the initial configuration, and what
    they give for [solve]: every recorded clue was scored against the
    secret and every guess was consistent with the clues before it; the
    counter and the printed lines follow the clues; a returned code is
    the secret; a secret that is one of the candidates is never missed
    because the candidates ran out; a secret of four colours that is not
    a candidate is never returned; and a game never goes past its secret
    (a run has at most one step per candidate up to the secret).  Only
    the interface
    [ScorerLaws] of the scoring function is used. *)

From S2P Require Import Prelude Types Scoring Candidates Clues Solver.
Import Scoring Solver.

Section Invariants.
Context (score_guess : Code -> Code -> Score) (answer : Code) (sols : list Code).

(** The lines [solve] prints for a list of clues: one numbered guess line
    per clue. *)
Definition guess_lines (clues : list Clue) : list Line :=
  imap (fun i c => GuessLine (Z.of_nat i + 1) c.1 c.2) clues.

(** The line printed for the winning guess, if the game is solved. *)
Definition solved_line (ph : Phase) (st : SolveState) : list Line :=
  match ph with
  | Solved c => [GuessLine (guess_num st) c (score_guess c answer)]
  | _ => []
  end.

(** The codes guessed so far: the clues', then the winning guess. *)
Definition guessed (ph : Phase) (st : SolveState) : list Code :=
  map fst (clues st) ++ match ph with Solved c => [c] | _ => [] end.

(** The codes of the guess lines of a printed output. *)
Definition printed_guesses (out : list Line) : list Code :=
  omap (fun l => match l with GuessLine _ c _ => Some c | _ => None end) out.

(** Each clue's code passed the filter on the clues recorded before it. *)
Definition history_consistent (clues : list Clue) : Prop :=
  forall i c, clues !! i = Some c ->
  solution_matches_clues score_guess c.1 (take i clues) = true.

Record solver_inv (cfg : Config) : Prop := {
  inv_counter :
    guess_num (cfg_state cfg) = (Z.of_nat (length (clues (cfg_state cfg))) + 1)%Z;
  inv_scored : Forall (scored_against score_guess answer) (clues (cfg_state cfg));
  inv_consistent : history_consistent (clues (cfg_state cfg));
  inv_from_sols : Forall (fun c => c.1 ∈ sols) (clues (cfg_state cfg));
  inv_suffix : cfg_remaining cfg `suffix_of` sols;
  inv_order : guessed (cfg_phase cfg) (cfg_state cfg) ++ cfg_remaining cfg `sublist_of` sols;
  inv_printed :
    printed (cfg_state cfg) =
    guess_lines (clues (cfg_state cfg)) ++ solved_line (cfg_phase cfg) (cfg_state cfg);
  inv_bound : (Z.of_nat (length (clues (cfg_state cfg))) <= MAX_TRIES)%Z;
  inv_running_bound :
    cfg_phase cfg = Running -> (Z.of_nat (length (clues (cfg_state cfg))) < MAX_TRIES)%Z;
  inv_exhausted :
    cfg_phase cfg = Exhausted -> Z.of_nat (length (clues (cfg_state cfg))) = MAX_TRIES;
  inv_solved c :
    cfg_phase cfg = Solved c -> c ∈ sols /\ num_correct (score_guess c answer) = CODE_LEN
}.

Lemma solver_inv_init : solver_inv (Cfg Running sols solve_init).
Proof.
  split; cbn; try done; try (unfold MAX_TRIES; lia).
Qed.

Lemma history_consistent_snoc (clues : list Clue) (c : Code) (s : Score) :
  history_consistent clues -> solution_matches_clues score_guess c clues = true ->
  history_consistent (clues ++ [(c, s)]).
Proof.
  intros Hh Hc i x Hi. apply lookup_app_Some in Hi as [Hi | [Hlen Hi]].
  - rewrite take_app_le by (apply lookup_lt_Some in Hi; lia). by apply Hh.
  - apply list_lookup_singleton_Some in Hi as [Hi <-].
    rewrite take_app_length' by lia. done.
Qed.

Lemma guess_lines_snoc (clues : list Clue) (c : Code) (s : Score) :
  guess_lines (clues ++ [(c, s)]) =
  guess_lines clues ++ [GuessLine (Z.of_nat (length clues) + 1) c s].
Proof. unfold guess_lines. rewrite imap_app. cbn. by rewrite Nat.add_0_r. Qed.

Lemma suffix_tail (c : Code) (rest : list Code) :
  c :: rest `suffix_of` sols -> rest `suffix_of` sols /\ c ∈ sols.
Proof.
  intros Hs. split; [by eapply suffix_cons_l|].
  eapply elem_of_suffix; [|exact Hs]. set_solver.
Qed.

(** Recording a clue keeps the invariant of the state. *)
Lemma solver_inv_record ph rest c st :
  solver_inv (Cfg Running (c :: rest) st) ->
  solution_matches_clues score_guess c (clues st) = true ->
  (Z.of_nat (length (clues st)) + 1 <= MAX_TRIES)%Z ->
  (ph = Running -> (Z.of_nat (length (clues st)) + 1 < MAX_TRIES)%Z) ->
  (ph = Exhausted -> (Z.of_nat (length (clues st)) + 1 = MAX_TRIES)%Z) ->
  (forall c', ph <> Solved c') ->
  solver_inv (Cfg ph rest (record_clue st c (score_guess c answer))).
Proof.
  intros [Hn Hsc Hcons Hfrom Hsuf Hord Hpr _ _ _ _] Hm Hle Hlt Hex Hns. cbn in *.
  destruct (suffix_tail c rest Hsuf) as [Hsuf' Hc].
  assert (solved_line ph (record_clue st c (score_guess c answer)) = []) as Hsl
    by (destruct ph; naive_solver).
  assert (guessed ph (record_clue st c (score_guess c answer)) = map fst (clues st) ++ [c]) as Hg
    by (destruct ph; unfold guessed; cbn; rewrite ?map_app, ?app_nil_r; naive_solver).
  assert (guessed ph (record_clue st c (score_guess c answer)) ++ rest `sublist_of` sols) as Hord'
    by (rewrite Hg, <- app_assoc; unfold guessed in Hord; cbn in Hord; by rewrite app_nil_r in Hord).
  split; cbn; rewrite ?length_app; cbn [length].
  - rewrite Hn. lia.
  - apply Forall_app. split; [done|]. by constructor.
  - by apply history_consistent_snoc.
  - apply Forall_app. split; [done|]. by constructor.
  - done.
  - exact Hord'.
  - rewrite Hsl, app_nil_r, guess_lines_snoc, Hpr, Hn. by rewrite app_nil_r.
  - lia.
  - intros ->. specialize (Hlt eq_refl). lia.
  - intros ->. specialize (Hex eq_refl). lia.
  - intros c' ->. by destruct (Hns c').
Qed.

Lemma solver_inv_step cfg cfg' :
  solver_inv cfg -> step score_guess answer cfg cfg' -> solver_inv cfg'.
Proof.
  intros Hinv Hstep. destruct Hstep as [c rest st Hm | c rest st Hm Hc | c rest st Hm Hc Hlt
    | c rest st Hm Hc Heq | st].
  - destruct Hinv as [Hn Hsc Hcons Hfrom Hsuf Hord Hpr Hb Hrb Hex Hsol]. cbn in *.
    split; cbn; try done; [by apply suffix_tail in Hsuf as [? _]|].
    etrans; [|exact Hord]. apply sublist_app; [done | by apply sublist_cons].
  - destruct Hinv as [Hn Hsc Hcons Hfrom Hsuf Hord Hpr Hb Hrb Hex Hsol]. cbn in *.
    apply suffix_tail in Hsuf as [Hsuf Hcs].
    split; cbn; try done.
    + unfold guessed in *. cbn in *. rewrite app_nil_r in Hord. by rewrite <- app_assoc.
    + rewrite Hpr, app_nil_r. done.
    + intros c' [= <-]. done.
  - apply solver_inv_record; try done; intros; (lia || congruence).
  - apply solver_inv_record; try done; intros; (lia || congruence).
  - destruct Hinv as [Hn Hsc Hcons Hfrom Hsuf Hord Hpr Hb Hrb Hex Hsol]. split; cbn in *; done.
Qed.

(** The invariant holds in every reachable configuration. *)
Lemma solver_inv_reachable cfg : reachable score_guess answer sols cfg -> solver_inv cfg.
Proof.
  unfold reachable. revert cfg. apply rtc_ind_r; [apply solver_inv_init|].
  intros y z _ Hyz IH. by eapply solver_inv_step.
Qed.

(** C4: in every configuration of a game, each recorded clue holds the
    score its code received against the secret, and each clue's code was
    consistent with all the clues recorded before it (it passed
    [solution_matches_clues] when it was guessed). *)
Theorem solver_history_invariant (cfg : Config) :
  reachable score_guess answer sols cfg ->
  Forall (scored_against score_guess answer) (clues (cfg_state cfg)) /\
  history_consistent (clues (cfg_state cfg)).
Proof. intros Hr. destruct (solver_inv_reachable cfg Hr). done. Qed.

(** In every configuration of a game the printed lines are exactly one
    line per guess, numbered from 1 in guess order (the recorded clues,
    then the winning guess if the game is solved), the counter is one
    more than the number of clues, and there are at most [MAX_TRIES]
    clues, fewer while the game runs. *)
Lemma reachable_output (cfg : Config) :
  reachable score_guess answer sols cfg ->
  printed (cfg_state cfg) =
    guess_lines (clues (cfg_state cfg)) ++ solved_line (cfg_phase cfg) (cfg_state cfg) /\
  guess_num (cfg_state cfg) = (Z.of_nat (length (clues (cfg_state cfg))) + 1)%Z /\
  (Z.of_nat (length (clues (cfg_state cfg))) <= MAX_TRIES)%Z /\
  (cfg_phase cfg = Running -> (Z.of_nat (length (clues (cfg_state cfg))) < MAX_TRIES)%Z).
Proof. intros Hr. destruct (solver_inv_reachable cfg Hr). done. Qed.

Lemma printed_guesses_guess_lines (clues : list Clue) :
  printed_guesses (guess_lines clues) = map fst clues.
Proof.
  induction clues as [|[c s] clues IH] using rev_ind; [done|].
  unfold printed_guesses in *. by rewrite guess_lines_snoc, omap_app, map_app, IH.
Qed.

(** In every configuration of a game the guess lines printed are those
    of the codes guessed, and these come in the order of [sols], none
    twice when [sols] has no repetition. *)
Lemma reachable_guesses (cfg : Config) :
  reachable score_guess answer sols cfg ->
  printed_guesses (printed (cfg_state cfg)) = guessed (cfg_phase cfg) (cfg_state cfg) /\
  guessed (cfg_phase cfg) (cfg_state cfg) `sublist_of` sols.
Proof.
  intros Hr. destruct (solver_inv_reachable cfg Hr) as [_ _ _ _ _ Hord Hpr _ _ _ _].
  split; [|etrans; [apply sublist_inserts_r; reflexivity | exact Hord]].
  rewrite Hpr. unfold printed_guesses, guessed. rewrite omap_app. fold (printed_guesses (guess_lines (clues (cfg_state cfg)))).
  rewrite printed_guesses_guess_lines. f_equal. by destruct (cfg_phase cfg).
Qed.

End Invariants.

Section WithLaws.
Context (score_guess : Code -> Code -> Score) `{!ScorerLaws score_guess}.

(** While the game runs the secret is still ahead; the game never ends
    depleted. *)
Definition live (answer : Code) (cfg : Config) : Prop :=
  match cfg_phase cfg with
  | Running => answer ∈ cfg_remaining cfg
  | DepletedP => False
  | _ => True
  end.

Lemma clues_scored_nodup answer sols cfg :
  Forall NoDup sols -> solver_inv score_guess answer sols cfg ->
  Forall (fun c => NoDup c.1 /\ scored_against score_guess answer c) (clues (cfg_state cfg)).
Proof.
  intros Hsols [_ Hsc _ Hfrom _ _ _ _ _ _ _]. apply Forall_forall. intros x Hx. split.
  - apply (proj1 (Forall_forall _ _) Hsols), (proj1 (Forall_forall _ _) Hfrom x Hx).
  - apply (proj1 (Forall_forall _ _) Hsc x Hx).
Qed.

Lemma live_step answer sols cfg cfg' :
  NoDup answer -> Z.of_nat (length answer) = CODE_LEN -> Forall NoDup sols ->
  solver_inv score_guess answer sols cfg -> live answer cfg ->
  step score_guess answer cfg cfg' -> live answer cfg'.
Proof.
  intros Ha Hlen Hsols Hinv Hlive Hstep.
  pose proof (clues_scored_nodup answer sols cfg Hsols Hinv) as Hcl.
  destruct Hstep as [c rest st Hm | c rest st Hm Hc | c rest st Hm Hc Hlt
    | c rest st Hm Hc Heq | st]; unfold live in *; cbn in *; try done.
  - apply elem_of_cons in Hlive as [<- | Hr]; [|done].
    by rewrite (secret_matches_clues score_guess answer (clues st) Ha Hcl) in Hm.
  - apply elem_of_cons in Hlive as [<- | Hr]; [|done].
    exfalso. apply Hc. by rewrite scorer_self.
  - set_solver.
Qed.

(** If the secret has no repeated colour, has [CODE_LEN] colours and
    is one of the candidates, and no candidate repeats a colour, then the
    game never ends with the candidates exhausted: while it runs the
    secret is still among the candidates ahead. *)
Lemma reachable_not_depleted (answer : Code) (sols : list Code) (cfg : Config) :
  NoDup answer -> Z.of_nat (length answer) = CODE_LEN -> answer ∈ sols ->
  Forall NoDup sols -> reachable score_guess answer sols cfg ->
  cfg_phase cfg <> DepletedP /\ (cfg_phase cfg = Running -> answer ∈ cfg_remaining cfg).
Proof.
  intros Ha Hlen Hin Hsols Hr.
  assert (solver_inv score_guess answer sols cfg /\ live answer cfg) as [_ Hlive].
  { unfold reachable in Hr. revert cfg Hr. apply rtc_ind_r.
    - split; [apply solver_inv_init | done].
    - intros y z _ Hyz [Hinv Hl]. split; [by eapply solver_inv_step | by eapply live_step]. }
  unfold live in Hlive. destruct (cfg_phase cfg); naive_solver.
Qed.

(** A solved game was solved by the secret itself, when every
    candidate has as many colours as the secret. *)
Lemma reachable_solved_secret (answer : Code) (sols : list Code) (cfg : Config) (c : Code) :
  Z.of_nat (length answer) = CODE_LEN -> (forall x, x ∈ sols -> length x = length answer) ->
  reachable score_guess answer sols cfg -> cfg_phase cfg = Solved c -> c = answer.
Proof.
  intros Hlen Hsols Hr Hph.
  destruct (inv_solved _ _ _ _ (solver_inv_reachable _ _ _ _ Hr) c Hph) as [Hc Hnc].
  apply scorer_exact; [by apply Hsols | by rewrite Hnc].
Qed.

End WithLaws.

(** ** What the invariants give for [solve] *)

Section Solve.
Context (score_guess : Code -> Code -> Score).

Lemma solve_loop_reachable (answer : Code) :
  exists rem, reachable score_guess answer all_possible_solutions
    (Cfg (exit_phase (solve_loop score_guess answer all_possible_solutions solve_init).1) rem
         (solve_loop score_guess answer all_possible_solutions solve_init).2).
Proof. apply solve_loop_steps. cbn. unfold MAX_TRIES. lia. Qed.

(** C6: [solve] prints one numbered line per guess, at most [MAX_TRIES]
    of them for the recorded clues, and then either the line of the
    winning guess, numbered next, when it returns a code, or the failure
    line when it returns [None]. *)
Theorem solve_output (answer : Code) :
  exists clues : list Clue,
    (Z.of_nat (length clues) <= MAX_TRIES)%Z /\
    (solve score_guess answer).2 =
      guess_lines clues ++
      match (solve score_guess answer).1 with
      | Some s => [GuessLine (Z.of_nat (length clues) + 1) s (score_guess s answer)]
      | None => [FailLine]
      end.
Proof.
  destruct (solve_loop_reachable answer) as [rem Hr]. unfold solve.
  destruct (solve_loop score_guess answer all_possible_solutions solve_init) as [e st].
  destruct (reachable_output _ _ _ _ Hr) as (Hpr & Hn & Hb & _). cbn in *.
  exists (clues st). split; [done|]. rewrite Hpr.
  destruct e; cbn; rewrite ?app_nil_r; try done. by rewrite Hn.
Qed.

Context `{!ScorerLaws score_guess}.

(** A game over the candidates that is solved is solved by the secret,
    when the secret has [CODE_LEN] colours. *)
Lemma solved_is_secret (answer s : Code) (rem : list Code) (st : SolveState) :
  Z.of_nat (length answer) = CODE_LEN ->
  reachable score_guess answer all_possible_solutions (Cfg (Solved s) rem st) -> s = answer.
Proof.
  intros Hlen Hr.
  apply (reachable_solved_secret score_guess answer all_possible_solutions (Cfg (Solved s) rem st) s Hlen);
    [| exact Hr | done].
  intros x Hx. rewrite (candidate_length x Hx). unfold CODE_LEN in Hlen. lia.
Qed.

(** A game against a candidate stays [live] at every reachable
    configuration. *)
Lemma candidate_live (answer : Code) (cfg : Config) :
  answer ∈ all_possible_solutions ->
  reachable score_guess answer all_possible_solutions cfg -> live answer cfg.
Proof.
  intros Hin Hr.
  assert (Hnd : Forall NoDup all_possible_solutions)
    by (apply Forall_forall; intros x Hx; by apply candidate_NoDup).
  destruct (reachable_not_depleted score_guess answer _ cfg (candidate_NoDup _ Hin)
              ltac:(rewrite (candidate_length _ Hin); done) Hin Hnd Hr) as [Hd Hrun].
  unfold live. destruct (cfg_phase cfg); auto.
Qed.

(** C21: a game over the candidates never goes past its secret: when
    the secret is the candidate at index [k] of [all_possible_solutions()],
    every run of the state machine from the start has at most [k + 1]
    steps (one per candidate before it, skipped or guessed, and the one
    that guesses it), and ends [live]: while running, the secret is
    still among the remaining candidates, and never depleted. *)
Theorem solve_ends_by_secret (answer : Code) (k n : nat) (cfg : Config) :
  all_possible_solutions !! k = Some answer ->
  nsteps (step score_guess answer) n (Cfg Running all_possible_solutions solve_init) cfg ->
  n <= S k /\ live answer cfg.
Proof.
  intros Hk Hn.
  assert (Hin : answer ∈ all_possible_solutions) by (eapply list_elem_of_lookup_2; exact Hk).
  split; [|exact (candidate_live answer cfg Hin (rtc_nsteps_2 _ _ _ Hn))].
  destruct n as [|m]; [lia|].
  apply nsteps_inv_r in Hn as (y & Hy & Hyz).
  pose proof (candidate_live answer y Hin (rtc_nsteps_2 _ _ _ Hy)) as Hlive.
  unfold live in Hlive. rewrite (step_running _ _ _ _ Hyz) in Hlive.
  rewrite (nsteps_remaining _ _ _ _ _ Hy) in Hlive. cbn [cfg_remaining] in Hlive.
  pose proof (NoDup_elem_of_drop _ _ _ _ candidates_NoDup Hk Hlive). lia.
Qed.

(** C3: a code returned by [solve] is the secret, for a secret of
    [CODE_LEN] colours, and it is the code of the last guess line
    printed. *)
Theorem solve_returns_secret (answer s : Code) :
  Z.of_nat (length answer) = CODE_LEN -> (solve score_guess answer).1 = Some s ->
  s = answer /\ last (printed_guesses (solve score_guess answer).2) = Some s.
Proof.
  intros Hlen. destruct (solve_loop_reachable answer) as [rem Hr].
  destruct (reachable_guesses _ _ _ _ Hr) as [Hpg _]. unfold solve.
  destruct (solve_loop score_guess answer all_possible_solutions solve_init) as [e st].
  destruct e as [s'| |]; cbn [fst snd exit_phase cfg_state cfg_phase] in *; intros Hs; try discriminate.
  injection Hs as <-. split; [by apply (solved_is_secret answer s' rem st)|].
  rewrite Hpg. unfold guessed. by rewrite last_snoc.
Qed.

(** C2: when the secret is one of the candidates, [solve] either returns
    it or gives up after exactly [MAX_TRIES] wrong guesses, printing the
    twelve guess lines and the failure line; it never gives up because
    the candidates ran out. *)
Theorem solve_candidate_outcome (answer : Code) :
  answer ∈ all_possible_solutions ->
  (solve score_guess answer).1 = Some answer \/
  exists clues : list Clue,
    Z.of_nat (length clues) = MAX_TRIES /\
    solve score_guess answer = (None, guess_lines clues ++ [FailLine]).
Proof.
  intros Hin. destruct (solve_loop_reachable answer) as [rem Hr].
  assert (Forall NoDup all_possible_solutions) as Hnd
    by (apply Forall_forall; intros x Hx; by apply candidate_NoDup).
  destruct (reachable_not_depleted score_guess answer _ _ (candidate_NoDup _ Hin)
              ltac:(rewrite (candidate_length _ Hin); done) Hin Hnd Hr) as [Hnd' _].
  pose proof (solver_inv_reachable _ _ _ _ Hr) as Hinv.
  unfold solve. destruct (solve_loop score_guess answer all_possible_solutions solve_init) as [e st].
  destruct e as [s| |]; cbn in *.
  - left. f_equal. apply (reachable_solved_secret score_guess answer all_possible_solutions (Cfg (Solved s) rem st) s);
      [| | exact Hr | done].
    + by rewrite (candidate_length _ Hin).
    + intros x Hx. by rewrite (candidate_length x Hx), (candidate_length _ Hin).
  - right. exists (clues st). split; [by apply (inv_exhausted _ _ _ _ Hinv)|].
    pose proof (inv_printed _ _ _ _ Hinv) as Hp. cbn in Hp. by rewrite Hp, app_nil_r.
  - done.
Qed.

(** C22: the error path of [solve]: a secret of [CODE_LEN] colours that
    is not one of the candidates (it repeats a colour) is never returned:
    [solve] returns [None] after printing one numbered line per recorded
    clue (at most [MAX_TRIES]) and then the failure line. *)
Theorem solve_non_candidate (answer : Code) :
  Z.of_nat (length answer) = CODE_LEN -> answer ∉ all_possible_solutions ->
  exists clues : list Clue,
    (Z.of_nat (length clues) <= MAX_TRIES)%Z /\
    solve score_guess answer = (None, guess_lines clues ++ [FailLine]).
Proof.
  intros Hlen Hnot. destruct (solve_loop_reachable answer) as [rem Hr].
  destruct (reachable_output _ _ _ _ Hr) as (Hpr & _ & Hb & _). unfold solve.
  destruct (solve_loop score_guess answer all_possible_solutions solve_init) as [e st].
  destruct e as [s| |]; cbn in *.
  - destruct (inv_solved _ _ _ _ (solver_inv_reachable _ _ _ _ Hr) s eq_refl) as [Hs _].
    by rewrite (solved_is_secret answer s rem st Hlen Hr) in Hs.
  - exists (clues st). by rewrite Hpr, app_nil_r.
  - exists (clues st). by rewrite Hpr, app_nil_r.
Qed.

End Solve.

(** ** Witnesses *)

(** The secret RGBW, second candidate: RGBY is guessed (three exact
    pegs) and then RGBW solves the game, in two steps. *)
Lemma solve_ends_by_secret_witness :
  all_possible_solutions !! 1 = Some [RED; GREEN; BLUE; WHITE] /\
  exists cfg, nsteps (step Scoring.score_guess [RED; GREEN; BLUE; WHITE]) 2
     (Cfg Running all_possible_solutions solve_init) cfg /\
   2 <= 2 /\ live [RED; GREEN; BLUE; WHITE] cfg.
Proof.
  assert (H1 : all_possible_solutions !! 1 = Some [RED; GREEN; BLUE; WHITE]) by (vm_compute; reflexivity).
  assert (Hs : all_possible_solutions =
            [RED; GREEN; BLUE; YELLOW] :: [RED; GREEN; BLUE; WHITE] :: drop 2 all_possible_solutions)
    by (apply (bool_decide_unpack _); vm_compute; reflexivity).
  assert (H2 : exists cfg, nsteps (step Scoring.score_guess [RED; GREEN; BLUE; WHITE]) 2
                 (Cfg Running all_possible_solutions solve_init) cfg).
  { rewrite Hs. eexists. eapply nsteps_l; [apply step_clue; vm_compute; try reflexivity; discriminate|].
    eapply nsteps_l; [apply step_solved; vm_compute; reflexivity|]. apply nsteps_O. }
  split; [exact H1|]. destruct H2 as [cfg Hcfg]. exists cfg. split; [exact Hcfg|].
  exact (solve_ends_by_secret _ _ _ _ _ H1 Hcfg).
Defined.

Lemma solver_history_invariant_witness :
  reachable Scoring.score_guess [RED; BLUE; GREEN; YELLOW] all_possible_solutions
    (Cfg Running all_possible_solutions solve_init) /\
  Forall (scored_against Scoring.score_guess [RED; BLUE; GREEN; YELLOW])
    (clues (cfg_state (Cfg Running all_possible_solutions solve_init))) /\
  history_consistent Scoring.score_guess (clues (cfg_state (Cfg Running all_possible_solutions solve_init))).
Proof.
  assert (H : reachable Scoring.score_guess [RED; BLUE; GREEN; YELLOW] all_possible_solutions
                (Cfg Running all_possible_solutions solve_init)) by apply rtc_refl.
  split; [exact H | exact (solver_history_invariant _ _ _ _ H)].
Defined.

Lemma solve_returns_secret_witness :
  Z.of_nat (length [RED; GREEN; BLUE; YELLOW]) = CODE_LEN /\
  (solve Scoring.score_guess [RED; GREEN; BLUE; YELLOW]).1 = Some [RED; GREEN; BLUE; YELLOW] /\
  [RED; GREEN; BLUE; YELLOW] = [RED; GREEN; BLUE; YELLOW] /\
  last (printed_guesses (solve Scoring.score_guess [RED; GREEN; BLUE; YELLOW]).2) =
    Some [RED; GREEN; BLUE; YELLOW].
Proof.
  assert (H1 : Z.of_nat (length [RED; GREEN; BLUE; YELLOW]) = CODE_LEN) by reflexivity.
  assert (H2 : (solve Scoring.score_guess [RED; GREEN; BLUE; YELLOW]).1 = Some [RED; GREEN; BLUE; YELLOW])
    by (vm_compute; reflexivity).
  split; [exact H1|]. split; [exact H2|]. exact (solve_returns_secret _ _ _ H1 H2).
Defined.

Lemma solve_candidate_outcome_witness :
  [CYAN; PINK; GREY; WHITE] ∈ all_possible_solutions /\
  ((solve Scoring.score_guess [CYAN; PINK; GREY; WHITE]).1 = Some [CYAN; PINK; GREY; WHITE] \/
   exists clues : list Clue, Z.of_nat (length clues) = MAX_TRIES /\
     solve Scoring.score_guess [CYAN; PINK; GREY; WHITE] = (None, guess_lines clues ++ [FailLine])).
Proof.
  assert (H : [CYAN; PINK; GREY; WHITE] ∈ all_possible_solutions)
    by (apply (bool_decide_unpack _); vm_compute; reflexivity).
  split; [exact H | exact (solve_candidate_outcome _ _ H)].
Defined.

Lemma solve_non_candidate_witness :
  Z.of_nat (length [RED; RED; BLUE; YELLOW]) = CODE_LEN /\
  [RED; RED; BLUE; YELLOW] ∉ all_possible_solutions /\
  exists clues : list Clue,
    (Z.of_nat (length clues) <= MAX_TRIES)%Z /\
    solve Scoring.score_guess [RED; RED; BLUE; YELLOW] = (None, guess_lines clues ++ [FailLine]).
Proof.
  assert (H1 : Z.of_nat (length [RED; RED; BLUE; YELLOW]) = CODE_LEN) by reflexivity.
  assert (H2 : [RED; RED; BLUE; YELLOW] ∉ all_possible_solutions)
    by (apply (bool_decide_unpack _); vm_compute; reflexivity).
  split; [exact H1|]. split; [exact H2|]. exact (solve_non_candidate _ _ H1 H2).
Defined.
