(* ===== verification/Strategy.v ===== *)
(** The strategy [solve] implements, as a reference definition: before
    each guess, search the candidates from the start for the first one
    consistent with every clue so far ([first_consistent]); guess it;
    stop when it scores [CODE_LEN] exact pegs, when the candidates run
    out, or at the [MAX_TRIES]th clue.  [restart] runs this strategy with
    fuel; [solve_strategy] prints what it guesses.

    [solve] makes a single pass over the candidates instead of
    restarting the search; the two agree ([solve_first_consistent])
    because a candidate the pass has left behind stays inconsistent:
    a skipped candidate failed a clue that remains, and a guessed code
    fails its own clue unless it won.  The proof uses only the interface
    [ScorerLaws] of the scoring function and candidates of [CODE_LEN]
    colours.  Each call of [restart] but the last records a clue, so
    [MAX_TRIES] is enough fuel. *)

From S2P Require Import Prelude Types Scoring Candidates Clues Solver SolverInv.
Import Scoring Solver.

Open Scope mm_scope.

Section Strategy.
Context (score_guess : Code -> Code -> Score).

(** The first candidate, in the order of [sols], that passes the filter
    on the clues [cl]. *)
Definition first_consistent (sols : list Code) (cl : list Clue) : option Code :=
  List.find (fun s => solution_matches_clues score_guess s cl) sols.

(** The strategy with [fuel] guesses left: its exit and its clues. *)
Fixpoint restart (fuel : nat) (answer : Code) (sols : list Code) (cl : list Clue) : LoopExit * list Clue :=
  match fuel with
  | 0 => (Break, cl)
  | S f =>
      match first_consistent sols cl with
      | None => (Depleted, cl)
      | Some g =>
          let sc := score_guess g answer in
          if num_correct sc == CODE_LEN then (Found g, cl)
          else
            let cl' := cl ++ [(g, sc)] in
            if Z.of_nat (length cl') == MAX_TRIES then (Break, cl') else restart f answer sols cl'
      end
  end.

(** The output of the strategy, as [solve] prints and returns it. *)
Definition solve_strategy (answer : Code) : option Code * list Line :=
  match restart (Z.to_nat MAX_TRIES) answer all_possible_solutions [] with
  | (Found s, cl) =>
      (Some s, guess_lines cl ++ [GuessLine (Z.of_nat (length cl) + 1) s (score_guess s answer)])
  | (_, cl) => (None, guess_lines cl ++ [FailLine])
  end.

Lemma find_skip (p : Code -> bool) (pre rest : list Code) :
  (forall s, s ∈ pre -> p s = false) -> List.find p (pre ++ rest) = List.find p rest.
Proof.
  induction pre as [|x pre IH]; intros Hpre; [done|]. cbn.
  rewrite Hpre by set_solver. apply IH. set_solver.
Qed.

Context `{!ScorerLaws score_guess}.

(** A code that did not win fails the clue it received. *)
Lemma own_clue_fails (g answer : Code) :
  Z.of_nat (length g) = CODE_LEN -> num_correct (score_guess g answer) <> CODE_LEN ->
  solution_matches_clues score_guess g [(g, score_guess g answer)] = false.
Proof.
  intros Hlen Hne. cbn. rewrite bool_decide_true; [done|].
  intros Heq. apply Hne. by rewrite Heq, scorer_self.
Qed.

(** Adding a clue keeps a failing candidate failing. *)
Lemma fails_snoc (s : Code) (cl : list Clue) (c : Clue) :
  solution_matches_clues score_guess s cl = false ->
  solution_matches_clues score_guess s (cl ++ [c]) = false.
Proof. intros H. by rewrite solution_matches_clues_app, H. Qed.

(** The single pass over [rest], after a prefix [pre] of candidates that
    all fail the clues, does what the restarting strategy does. *)
Lemma solve_loop_restart (answer : Code) (pre rest : list Code) (st : SolveState) (fuel : nat) :
  (forall s, s ∈ pre ++ rest -> Z.of_nat (length s) = CODE_LEN) ->
  (forall s, s ∈ pre -> solution_matches_clues score_guess s (clues st) = false) ->
  (Z.of_nat (length (clues st)) < MAX_TRIES)%Z ->
  (Z.to_nat MAX_TRIES <= fuel + length (clues st))%nat ->
  ((solve_loop score_guess answer rest st).1, clues (solve_loop score_guess answer rest st).2) =
    restart fuel answer (pre ++ rest) (clues st).
Proof.
  revert pre st fuel. induction rest as [|c rest IH]; intros pre st fuel Hlen Hpre Hlt Hfuel;
    cbn [solve_loop].
  { destruct fuel as [|fuel]; [unfold MAX_TRIES in *; lia|]. cbn [restart].
    unfold first_consistent. rewrite find_skip by done. done. }
  assert (Hsplit : pre ++ c :: rest = (pre ++ [c]) ++ rest) by by rewrite <- app_assoc.
  assert (Hlen' : forall s, s ∈ (pre ++ [c]) ++ rest -> Z.of_nat (length s) = CODE_LEN)
    by (rewrite <- Hsplit; exact Hlen).
  unfold solve_body. destruct (solution_matches_clues score_guess c (clues st)) eqn:Hm.
  - destruct fuel as [|fuel]; [unfold MAX_TRIES in *; lia|]. cbn [restart].
    unfold first_consistent. rewrite find_skip by done. cbn [List.find]. rewrite Hm.
    case_bool_decide as Hwin; [done|]. cbn [clues print]. rewrite length_app. cbn [length].
    case_bool_decide as Hmax; [done|]. rewrite Hsplit.
    apply (IH (pre ++ [c]) (mkState (clues st ++ [(c, score_guess c answer)]) _ _)); cbn [clues].
    + exact Hlen'.
    + intros s [Hs | ->%list_elem_of_singleton]%elem_of_app.
      * by apply fails_snoc, Hpre.
      * rewrite solution_matches_clues_app, own_clue_fails, andb_false_r; [done | | done].
        apply Hlen. set_solver.
    + rewrite length_app. cbn [length]. lia.
    + rewrite length_app. cbn [length]. lia.
  - case_bool_decide as Hmax; [lia|]. rewrite Hsplit. apply IH; [exact Hlen' | | done | done].
    intros s [Hs | ->%list_elem_of_singleton]%elem_of_app; [by apply Hpre | done].
Qed.

(** C29: [solve] implements the strategy of guessing, each time, the
    first candidate consistent with all the clues so far, searched from
    the start: its result and everything it prints are those of
    [solve_strategy], for every secret and every scoring function
    meeting [ScorerLaws]. *)
Theorem solve_first_consistent (answer : Code) :
  solve score_guess answer = solve_strategy answer.
Proof.
  pose proof (solve_loop_restart answer [] all_possible_solutions solve_init (Z.to_nat MAX_TRIES))
    as Heq.
  cbn [app clues solve_init length] in Heq.
  unfold solve, solve_strategy.
  rewrite <- Heq; [| intros s Hs; by rewrite (candidate_length s Hs)
    | intros s Hs; exfalso; exact (not_elem_of_nil s Hs) | done | lia].
  destruct (solve_loop_reachable score_guess answer) as [rem Hr].
  destruct (reachable_output _ _ _ _ Hr) as (Hpr & Hn & _). cbn [cfg_state cfg_phase] in *.
  clear Heq.
  destruct (solve_loop score_guess answer all_possible_solutions solve_init) as [[s| |] st];
    cbn [fst snd exit_phase solved_line] in *; rewrite Hpr, ?Hn, ?app_nil_r; reflexivity.
Qed.

End Strategy.

Lemma solve_first_consistent_witness :
  ScorerLaws Scoring.score_guess /\
  solve Scoring.score_guess [WHITE; CYAN; RED; GREY] = solve_strategy Scoring.score_guess [WHITE; CYAN; RED; GREY].
Proof. split; [exact score_guess_laws | exact (solve_first_consistent _ [WHITE; CYAN; RED; GREY])]. Defined.
