(* ===== verification/Format.v ===== *)
(** The formatting of src/mastermind.py: [format_code] (lines 23-38),
    [format_clue] (lines 41-50) and the f-strings of the three [print]
    calls (lines 77, 85, 91), with the ANSI escape strings of [colorama]
    written out ([CSI + str(code) + "m"], the codes of [colorama.ansi]).
    Strings are Rocq strings of bytes: the peg glyph is the three UTF-8
    bytes of U+25CF.

    The decoders [parse_pegs], [parse_clue] and [decode_line] read the
    printed text back; the round-trip theorems show that every printed
    line determines the values it was printed from, and that standard
    output ([stdout], each line and a newline) cut at its newlines
    ([split_lines]) gives back the printed lines. *)

From Stdlib Require Import String Ascii DecimalString DecimalZ.
From S2P Require Import Prelude Types.

Open Scope mm_scope.

Module Format.
Local Open Scope string_scope.

(** Python's [str] on an [int]. *)
Definition py_str (z : Z) : string := NilEmpty.string_of_int (Z.to_int z).

Definition ESC : ascii := ascii_of_nat 27.

(** [colorama.ansi]: [CSI = '\033[']; [code_to_chars(code) = CSI +
    str(code) + 'm']. *)
Definition CSI : string := String ESC "[".
Definition code_to_chars (code : Z) : string := CSI ++ py_str code ++ "m".

Definition Fore_RED : string := code_to_chars 31.
Definition Fore_GREEN : string := code_to_chars 32.
Definition Fore_YELLOW : string := code_to_chars 33.
Definition Fore_BLUE : string := code_to_chars 34.
Definition Fore_MAGENTA : string := code_to_chars 35.
Definition Fore_CYAN : string := code_to_chars 36.
Definition Fore_WHITE : string := code_to_chars 37.
Definition Style_BRIGHT : string := code_to_chars 1.
Definition Style_NORMAL : string := code_to_chars 22.
Definition Style_RESET_ALL : string := code_to_chars 0.

(** The dictionary [color_lookup] of [format_code]: a total map on the
    colours. *)
Definition color_lookup (c : Colors) : string :=
  match c with
  | RED => Style_BRIGHT ++ Fore_RED
  | GREEN => Style_BRIGHT ++ Fore_GREEN
  | BLUE => Style_BRIGHT ++ Fore_BLUE
  | YELLOW => Style_BRIGHT ++ Fore_YELLOW
  | WHITE => Style_BRIGHT ++ Fore_WHITE
  | GREY => Style_NORMAL ++ Fore_WHITE
  | PINK => Style_BRIGHT ++ Fore_MAGENTA
  | CYAN => Style_BRIGHT ++ Fore_CYAN
  end.

(** [s = ""]; [for color in code: s += color_lookup[color] + "●"];
    [s += colorama.Style.RESET_ALL]. *)
Definition format_code (code : Code) : string :=
  let s := "" in
  let s := fold_left (fun s color => s ++ (color_lookup color ++ "●")) code s in
  s ++ Style_RESET_ALL.

Definition format_clue (clue : Score) : string :=
  Style_BRIGHT ++ Fore_RED ++ py_str (num_correct clue) ++ " " ++ Fore_WHITE
  ++ py_str (num_almost_correct clue) ++ Style_RESET_ALL.

(** The text of each [print] call. *)
Definition print_line (l : Line) : string :=
  match l with
  | GuessLine guess_num solution score =>
      "Guess #" ++ py_str guess_num ++ ": " ++ format_code solution ++ "  Clue: " ++ format_clue score
  | FailLine => "Couldn't find an answer :("
  | GameLine number code =>
      "Game number " ++ py_str number ++ ", Selected code is " ++ format_code code
  end.

Definition newline : ascii := ascii_of_nat 10.

(** What the printed lines write to standard output: [print] ends each
    with a newline. *)
Definition stdout (lines : list Line) : string :=
  fold_right (fun l s => print_line l ++ String newline s) "" lines.

(** ** Decoding the printed text *)

Fixpoint drop_prefix (p s : string) : option string :=
  match p, s with
  | EmptyString, _ => Some s
  | String a p', String b s' => if Ascii.eqb a b then drop_prefix p' s' else None
  | String _ _, EmptyString => None
  end.

(** The text before the first occurrence of [c], and the rest from [c]. *)
Fixpoint split_at (c : ascii) (s : string) : option (string * string) :=
  match s with
  | EmptyString => None
  | String a s' =>
      if Ascii.eqb a c then Some (EmptyString, s)
      else let* (p, r) := split_at c s' in Some (String a p, r)
  end.

Definition parse_int (s : string) : option Z :=
  option_map Z.of_int (NilEmpty.int_of_string s).

(** One peg of [format_code]. *)
Definition peg (c : Colors) : string := color_lookup c ++ "●".

Fixpoint find_peg (cols : list Colors) (s : string) : option (Colors * string) :=
  match cols with
  | [] => None
  | c :: cols' =>
      match drop_prefix (peg c) s with
      | Some r => Some (c, r)
      | None => find_peg cols' s
      end
  end.

(** Reads pegs up to the reset sequence; [fuel] bounds the number of
    pegs. *)
Fixpoint parse_pegs (fuel : nat) (s : string) : option (Code * string) :=
  match fuel with
  | 0 => None
  | S f =>
      match drop_prefix Style_RESET_ALL s with
      | Some r => Some ([], r)
      | None =>
          let* (c, r) := find_peg Colors_members s in
          let* (cs, r') := parse_pegs f r in
          Some (c :: cs, r')
      end
  end.

Definition parse_code_prefix (s : string) : option (Code * string) :=
  parse_pegs (String.length s) s.

Definition parse_clue (s : string) : option Score :=
  let* r := drop_prefix Style_BRIGHT s in
  let* r := drop_prefix Fore_RED r in
  let* (a, r) := split_at " " r in
  let* nc := parse_int a in
  let* r := drop_prefix " " r in
  let* r := drop_prefix Fore_WHITE r in
  let* (b, r) := split_at ESC r in
  let* na := parse_int b in
  let* r := drop_prefix Style_RESET_ALL r in
  if String.eqb r "" then Some (mkScore nc na) else None.

(** The text cut at each newline; a last line without a newline is kept. *)
Fixpoint split_lines (acc s : string) : list string :=
  match s with
  | EmptyString => if String.eqb acc "" then [] else [acc]
  | String c s' =>
      if Ascii.eqb c newline then acc :: split_lines "" s'
      else split_lines (acc ++ String c "") s'
  end.

Definition decode_line (s : string) : option Line :=
  match drop_prefix "Guess #" s with
  | Some r =>
      let* (n, r) := split_at ":" r in
      let* num := parse_int n in
      let* r := drop_prefix ": " r in
      let* (code, r) := parse_code_prefix r in
      let* r := drop_prefix "  Clue: " r in
      let* sc := parse_clue r in
      Some (GuessLine num code sc)
  | None =>
      match drop_prefix "Game number " s with
      | Some r =>
          let* (n, r) := split_at "," r in
          let* num := parse_int n in
          let* r := drop_prefix ", Selected code is " r in
          let* (code, r) := parse_code_prefix r in
          if String.eqb r "" then Some (GameLine num code) else None
      | None => if String.eqb s "Couldn't find an answer :(" then Some FailLine else None
      end
  end.

Fixpoint decode_lines (ls : list string) : option (list Line) :=
  match ls with
  | [] => Some []
  | l :: ls' =>
      let* x := decode_line l in
      let* xs := decode_lines ls' in
      Some (x :: xs)
  end.

(** Standard output read back as the lines printed. *)
Definition decode_stdout (s : string) : option (list Line) :=
  decode_lines (split_lines "" s).

(** ** Lemmas on strings *)

Arguments py_str : simpl never.
Arguments format_code : simpl never.
Arguments format_clue : simpl never.

Lemma sappend_assoc (a b c : string) : (a ++ b) ++ c = a ++ (b ++ c).
Proof. induction a as [|x a IH]; cbn; [done|]. by rewrite IH. Qed.

Lemma sappend_nil_r (a : string) : a ++ "" = a.
Proof. induction a as [|x a IH]; cbn; [done|]. by rewrite IH. Qed.

Lemma slength_app (a b : string) : String.length (a ++ b) = (String.length a + String.length b)%nat.
Proof. induction a as [|x a IH]; cbn; [done|]. by rewrite IH. Qed.

Lemma drop_prefix_app (p r : string) : drop_prefix p (p ++ r) = Some r.
Proof. induction p as [|x p IH]; cbn; [done|]. by rewrite Ascii.eqb_refl. Qed.

Fixpoint has_char (c : ascii) (s : string) : bool :=
  match s with
  | EmptyString => false
  | String a s' => Ascii.eqb a c || has_char c s'
  end.

Lemma split_at_app (c : ascii) (p r : string) :
  has_char c p = false -> split_at c (p ++ String c r) = Some (p, String c r).
Proof.
  induction p as [|x p IH]; cbn; intros Hp; [by rewrite Ascii.eqb_refl|].
  apply orb_false_iff in Hp as [Hx Hp]. by rewrite Hx, IH.
Qed.

(** [str(n)] is made of digits and a minus sign: none of the separators
    the printed lines put after a number occurs in it. *)
Definition separator (c : ascii) : Prop :=
  c = " "%char \/ c = ":"%char \/ c = ","%char \/ c = ESC \/ c = newline.

Lemma has_char_uint (c : ascii) (d : Decimal.uint) :
  separator c -> has_char c (NilEmpty.string_of_uint d) = false.
Proof.
  intros Hc. induction d; cbn; [done|..];
    by destruct Hc as [-> | [-> | [-> | [-> | ->]]]].
Qed.

Lemma has_char_py_str (c : ascii) (z : Z) : separator c -> has_char c (py_str z) = false.
Proof.
  intros Hc. unfold py_str, NilEmpty.string_of_int. destruct (Z.to_int z) as [d|d].
  - by apply has_char_uint.
  - cbn. rewrite has_char_uint by done. by destruct Hc as [-> | [-> | [-> | [-> | ->]]]].
Qed.

Lemma parse_int_py_str (z : Z) : parse_int (py_str z) = Some z.
Proof. unfold parse_int, py_str. rewrite NilEmpty.isi. cbn. by rewrite DecimalZ.of_to. Qed.

Lemma has_char_app (c : ascii) (a b : string) :
  has_char c (a ++ b) = has_char c a || has_char c b.
Proof. induction a as [|x a IH]; cbn; [done|]. by rewrite IH, orb_assoc. Qed.

#[local] Hint Rewrite has_char_app : mastermind_rw.

(** ** Pegs *)

Fixpoint pegs (code : Code) : string :=
  match code with
  | [] => ""
  | c :: code' => peg c ++ pegs code'
  end.

Lemma format_code_pegs (code : Code) : format_code code = pegs code ++ Style_RESET_ALL.
Proof.
  unfold format_code. f_equal. cut (forall s0, fold_left (fun s color => s ++ (color_lookup color ++ "●")) code s0 = s0 ++ pegs code).
  - intros ->. done.
  - induction code as [|c code IH]; intros s0; cbn; [by rewrite sappend_nil_r|].
    rewrite IH, sappend_assoc. done.
Qed.

Lemma drop_reset_peg (c : Colors) (r : string) : drop_prefix Style_RESET_ALL (peg c ++ r) = None.
Proof. destruct c; reflexivity. Qed.

Lemma find_peg_peg (c : Colors) (r : string) : find_peg Colors_members (peg c ++ r) = Some (c, r).
Proof. destruct c; reflexivity. Qed.

Lemma length_pegs (code : Code) : (length code <= String.length (pegs code))%nat.
Proof.
  induction code as [|c code IH]; cbn [pegs length]; [lia|]. rewrite slength_app.
  assert (1 <= String.length (peg c))%nat by (destruct c; cbn; lia). lia.
Qed.

Lemma parse_pegs_pegs (code : Code) (fuel : nat) (r : string) :
  (length code < fuel)%nat -> parse_pegs fuel (pegs code ++ Style_RESET_ALL ++ r) = Some (code, r).
Proof.
  revert fuel. induction code as [|c code IH]; intros [|fuel] Hf; cbn [length] in Hf; try lia.
  - cbn [parse_pegs pegs append]. by rewrite drop_prefix_app.
  - cbn [parse_pegs pegs]. rewrite sappend_assoc, drop_reset_peg, find_peg_peg, IH by lia. done.
Qed.

Lemma parse_code_prefix_format (code : Code) (r : string) :
  parse_code_prefix (format_code code ++ r) = Some (code, r).
Proof.
  unfold parse_code_prefix. rewrite format_code_pegs, sappend_assoc. apply parse_pegs_pegs.
  rewrite !slength_app. pose proof (length_pegs code). cbn - [pegs]. lia.
Qed.

Lemma parse_code_prefix_format_end (code : Code) :
  parse_code_prefix (format_code code) = Some (code, "").
Proof. rewrite <- (sappend_nil_r (format_code code)). apply parse_code_prefix_format. Qed.

Lemma reset_esc : Style_RESET_ALL = String ESC "[0m".
Proof. reflexivity. Qed.

(** No printed line holds a newline. *)
Lemma has_char_format_code (code : Code) : has_char newline (format_code code) = false.
Proof.
  rewrite format_code_pegs, has_char_app. induction code as [|c code IH]; [reflexivity|].
  cbn [pegs]. rewrite has_char_app, orb_false_r in *. rewrite IH, orb_false_r. by destruct c.
Qed.

Lemma has_char_newline_py_str (z : Z) : has_char newline (py_str z) = false.
Proof. apply has_char_py_str. unfold separator. tauto. Qed.

Lemma has_char_print_line (l : Line) : has_char newline (print_line l) = false.
Proof.
  destruct l; unfold print_line; [| reflexivity |]; unfold format_clue;
    autorewrite with mastermind_rw; rewrite ?has_char_format_code, ?has_char_newline_py_str; reflexivity.
Qed.

(** Text without a newline, then a newline: one line. *)
Lemma split_lines_app (acc a s : string) :
  has_char newline a = false ->
  split_lines acc (a ++ String newline s) = (acc ++ a) :: split_lines "" s.
Proof.
  revert acc. induction a as [|x a IH]; intros acc Ha; cbn.
  - by rewrite sappend_nil_r.
  - apply orb_false_iff in Ha as [Hx Ha]. rewrite Hx, IH by done.
    by rewrite sappend_assoc.
Qed.

Lemma split_lines_stdout (lines : list Line) : split_lines "" (stdout lines) = map print_line lines.
Proof.
  induction lines as [|l lines IH]; [reflexivity|]. cbn [stdout fold_right map].
  rewrite split_lines_app by apply has_char_print_line. cbn [String.append]. f_equal. exact IH.
Qed.

(** The rewriting steps of a decoder run on printed text. *)
Ltac decode_step :=
  first
  [ rewrite drop_prefix_app
  | rewrite split_at_app by (apply has_char_py_str; unfold separator; tauto)
  | rewrite parse_int_py_str
  | rewrite parse_code_prefix_format
  | rewrite parse_code_prefix_format_end
  | progress cbn [String.append drop_prefix String.eqb Ascii.eqb Bool.eqb] ].

(** ** Round trips *)

(** [format_clue] is decoded back to the score it prints. *)
Lemma format_clue_roundtrip (sc : Score) : parse_clue (format_clue sc) = Some sc.
Proof.
  destruct sc as [a b]. unfold parse_clue, format_clue. cbn [num_correct num_almost_correct].
  rewrite drop_prefix_app, drop_prefix_app. cbn [String.append].
  repeat decode_step. rewrite reset_esc. repeat decode_step. reflexivity.
Qed.

(** Every printed line is decoded back to the line it was printed from:
    the guess number, the code and the score of a guess line, the game
    number and the code of a game line, and the failure line. *)
Lemma decode_print_line (l : Line) : decode_line (print_line l) = Some l.
Proof.
  destruct l as [n sol sc | | n code]; unfold decode_line, print_line; [| reflexivity |].
  - repeat decode_step. rewrite format_clue_roundtrip. reflexivity.
  - repeat decode_step. reflexivity.
Qed.

(** C20: standard output determines what was printed: cut at its
    newlines, each line decodes back to the line it was printed from (the
    guess number, the code and the score of a guess line, the game
    number and the code of a game line, the failure line), in order. *)
Theorem decode_stdout_roundtrip (lines : list Line) :
  decode_stdout (stdout lines) = Some lines.
Proof.
  unfold decode_stdout. rewrite split_lines_stdout.
  induction lines as [|l lines IH]; [done|]. cbn [map decode_lines].
  by rewrite decode_print_line, IH.
Qed.

End Format.
