(* ===== verification/Terminal.v ===== *)
(** What the terminal shows of the program's output.  The program writes
    [colorama]'s escape sequences (src/mastermind.py, lines 23-50) and
    relies on the terminal to turn them into colours.  The terminal is
    modelled as the state machine of ECMA-48 that reads the output one
    byte at a time: in the [Ground] state a byte is shown with the
    current attributes, [ESC] enters [Escape], [ESC [] starts a control
    sequence whose numeric parameters are collected up to the final byte
    [m], which applies them as Select Graphic Rendition codes: [0] resets,
    [1] selects bright, [22] normal intensity, [30]-[37] a foreground
    colour.  These are the only sequences [colorama.Fore] and
    [colorama.Style] produce in this program.

    The theorems: a formatted code is shown as three-byte pegs, each in
    the appearance of its colour, and leaves the terminal in its default
    style; no two codes look the same, GREY and WHITE included (normal and
    bright white); and a guess line shows its texts unstyled, its pegs,
    the exact count in bright red and the misplaced count in bright
    white. *)

From Stdlib Require Import String Ascii.
From S2P Require Import Prelude Types Format.
Import Format.

Open Scope mm_scope.

Module Terminal.
Local Open Scope string_scope.

(** The graphic attributes: intensity and foreground colour ([None]:
    the terminal's default, [Some k]: colour [30 + k]). *)
Record Attr : Type := mkAttr {
  bright : bool;
  fg : option nat
}.

#[export] Instance Attr_eq_dec : EqDecision Attr.
Proof. solve_decision. Defined.

Definition default_attr : Attr := mkAttr false None.

(** The parser's states: the numbers of a control sequence collected so
    far, and the one being read. *)
Inductive Mode : Type :=
| Ground
| Escape
| CsiParam (params : list nat) (cur : nat).

Record Term : Type := mkTerm {
  mode : Mode;
  attr : Attr
}.

Definition term_init : Term := mkTerm Ground default_attr.

(** A byte shown on the screen, with its attributes. *)
Abbreviation Cell := ((Attr * ascii)%type) (only parsing).

(** One Select Graphic Rendition code. *)
Definition sgr (a : Attr) (n : nat) : Attr :=
  if Nat.eqb n 0 then default_attr
  else if Nat.eqb n 1 then mkAttr true (fg a)
  else if Nat.eqb n 22 then mkAttr false (fg a)
  else if (Nat.leb 30 n && Nat.leb n 37)%bool then mkAttr (bright a) (Some (n - 30))
  else if Nat.eqb n 39 then mkAttr (bright a) None
  else a.

Definition is_digit (c : ascii) : bool :=
  (Nat.leb 48 (nat_of_ascii c) && Nat.leb (nat_of_ascii c) 57)%bool.

(** One byte of output. *)
Definition term_step (t : Term) (c : ascii) : Term * list Cell :=
  match mode t with
  | Ground =>
      if Ascii.eqb c ESC then (mkTerm Escape (attr t), []) else (t, [(attr t, c)])
  | Escape =>
      if Ascii.eqb c "[" then (mkTerm (CsiParam [] 0) (attr t), [])
      else (mkTerm Ground (attr t), [])
  | CsiParam ps cur =>
      if is_digit c then (mkTerm (CsiParam ps (cur * 10 + (nat_of_ascii c - 48))) (attr t), [])
      else if Ascii.eqb c ";" then (mkTerm (CsiParam (ps ++ [cur]) 0) (attr t), [])
      else if Ascii.eqb c "m" then (mkTerm Ground (fold_left sgr (ps ++ [cur]) (attr t)), [])
      else (mkTerm Ground (attr t), [])
  end.

(** The terminal reading a whole text: its final state and the cells
    shown. *)
Fixpoint term_run (t : Term) (s : string) : Term * list Cell :=
  match s with
  | EmptyString => (t, [])
  | String c s' =>
      let '(t1, o1) := term_step t c in
      let '(t2, o2) := term_run t1 s' in
      (t2, (o1 ++ o2)%list)
  end.

(** Text shown in attributes [a]. *)
Definition styled (a : Attr) (s : string) : list Cell :=
  map (fun c => (a, c)) (list_ascii_of_string s).

(** How each colour's peg looks, from [color_lookup]. *)
Definition appearance (c : Colors) : Attr :=
  match c with
  | RED => mkAttr true (Some 1)
  | GREEN => mkAttr true (Some 2)
  | BLUE => mkAttr true (Some 4)
  | YELLOW => mkAttr true (Some 3)
  | WHITE => mkAttr true (Some 7)
  | GREY => mkAttr false (Some 7)
  | PINK => mkAttr true (Some 5)
  | CYAN => mkAttr true (Some 6)
  end.

(** The cells of a code's pegs. *)
Definition peg_cells (code : Code) : list Cell :=
  flat_map (fun c => styled (appearance c) "●") code.

(** ** Lemmas *)

Lemma term_run_seq (t t1 : Term) (a b : string) (o1 : list Cell) :
  term_run t a = (t1, o1) ->
  term_run t (a ++ b) = ((term_run t1 b).1, (o1 ++ (term_run t1 b).2)%list).
Proof.
  revert t t1 o1. induction a as [|c a IH]; intros t t1 o1 Ha; cbn in *.
  - injection Ha as <- <-. by destruct (term_run t b).
  - destruct (term_step t c) as [t' o']. destruct (term_run t' a) as [t'' o''] eqn:Hr.
    injection Ha as <- <-. rewrite (IH t' t'' o'' Hr). cbn. by rewrite app_assoc.
Qed.

Lemma styled_app (a : Attr) (s1 s2 : string) :
  styled a (s1 ++ s2) = (styled a s1 ++ styled a s2)%list.
Proof. unfold styled. induction s1 as [|c s1 IH]; cbn; [done|]. by rewrite IH. Qed.

(** Text without an escape byte is shown as it is, in the current
    attributes. *)
Lemma term_run_plain (a : Attr) (s : string) :
  has_char ESC s = false -> term_run (mkTerm Ground a) s = (mkTerm Ground a, styled a s).
Proof.
  induction s as [|c s IH]; intros Hs; cbn in *; [done|].
  apply orb_false_iff in Hs as [Hc Hs]. unfold term_step. cbn. rewrite Hc, IH by done. done.
Qed.

Lemma term_run_py_str (a : Attr) (z : Z) :
  term_run (mkTerm Ground a) (py_str z) = (mkTerm Ground a, styled a (py_str z)).
Proof. apply term_run_plain, has_char_py_str. unfold separator. tauto. Qed.

(** A peg sets both the intensity and the colour: it looks the same
    whatever was shown before it. *)
Lemma term_run_peg (a : Attr) (c : Colors) :
  term_run (mkTerm Ground a) (peg c) = (mkTerm Ground (appearance c), styled (appearance c) "●").
Proof. by destruct c. Qed.

Lemma term_run_reset (a : Attr) :
  term_run (mkTerm Ground a) Style_RESET_ALL = (term_init, []).
Proof. reflexivity. Qed.

Lemma term_run_pegs (a : Attr) (code : Code) :
  term_run (mkTerm Ground a) (pegs code ++ Style_RESET_ALL) = (term_init, peg_cells code).
Proof.
  revert a. induction code as [|c code IH]; intros a; [apply term_run_reset|].
  cbn [pegs peg_cells flat_map]. rewrite sappend_assoc.
  erewrite term_run_seq by apply term_run_peg. by rewrite IH.
Qed.

Lemma appearance_inj (x y : Colors) : appearance x = appearance y -> x = y.
Proof. destruct x, y; cbn; congruence. Qed.

Lemma peg_cells_inj (c1 c2 : Code) : peg_cells c1 = peg_cells c2 -> c1 = c2.
Proof.
  revert c2. induction c1 as [|x c1 IH]; intros [|y c2]; cbn [peg_cells flat_map]; try done.
  intros Heq. apply app_inj_1 in Heq as [Hxy Hrest]; [|done].
  injection Hxy as Hxy. f_equal; [by apply appearance_inj | by apply IH].
Qed.

(** ** What the terminal shows *)

(** C30: a formatted code is shown as one three-byte peg per colour, in
    that colour's appearance (bright, except GREY: normal-intensity
    white), whatever the attributes before it, and leaves the terminal
    in its default style. *)
Theorem format_code_shown (a : Attr) (code : Code) :
  term_run (mkTerm Ground a) (format_code code) = (term_init, peg_cells code).
Proof. rewrite format_code_pegs. apply term_run_pegs. Qed.

(** C31: no two codes look the same on the terminal: the cells shown
    for a formatted code determine the code; in particular GREY and WHITE
    pegs differ (normal and bright white). *)
Theorem format_code_shown_inj (c1 c2 : Code) :
  (term_run term_init (format_code c1)).2 = (term_run term_init (format_code c2)).2 -> c1 = c2.
Proof.
  unfold term_init. rewrite !format_code_pegs, !term_run_pegs. cbn. apply peg_cells_inj.
Qed.

(** C32: a guess line is shown with its texts in the default style, its
    pegs, the exact count and the space after it in bright red, the
    misplaced count in bright white, and ends in the default style. *)
Theorem guess_line_shown (n : Z) (code : Code) (sc : Score) :
  term_run term_init (print_line (GuessLine n code sc)) =
    (term_init,
     (styled default_attr ("Guess #" ++ py_str n ++ ": ") ++ peg_cells code ++
      styled default_attr "  Clue: " ++
      styled (mkAttr true (Some 1)) (py_str (num_correct sc) ++ " ") ++
      styled (mkAttr true (Some 7)) (py_str (num_almost_correct sc)))%list).
Proof.
  unfold print_line, format_clue, term_init.
  erewrite term_run_seq by (apply term_run_plain; reflexivity).
  erewrite term_run_seq by apply term_run_py_str.
  erewrite term_run_seq by (apply term_run_plain; reflexivity).
  erewrite term_run_seq by (rewrite format_code_pegs; apply term_run_pegs).
  erewrite term_run_seq by (apply term_run_plain; reflexivity).
  erewrite term_run_seq by reflexivity.
  erewrite term_run_seq by reflexivity.
  erewrite term_run_seq by apply term_run_py_str.
  erewrite term_run_seq by (apply term_run_plain; reflexivity).
  erewrite term_run_seq by reflexivity.
  erewrite term_run_seq by apply term_run_py_str.
  rewrite term_run_reset. cbn [fst snd]. rewrite !styled_app. cbn [styled list_ascii_of_string map].
  rewrite !app_nil_r, <- !app_assoc. reflexivity.
Qed.

End Terminal.

Lemma format_code_shown_inj_witness :
  (Terminal.term_run Terminal.term_init (format_code [GREY; WHITE; RED; PINK])).2 =
    (Terminal.term_run Terminal.term_init (format_code [GREY; WHITE; RED; PINK])).2 /\
  [GREY; WHITE; RED; PINK] = [GREY; WHITE; RED; PINK].
Proof.
  assert (H : (Terminal.term_run Terminal.term_init (format_code [GREY; WHITE; RED; PINK])).2 =
              (Terminal.term_run Terminal.term_init (format_code [GREY; WHITE; RED; PINK])).2)
    by reflexivity.
  split; [exact H | exact (Terminal.format_code_shown_inj _ _ H)].
Defined.
