(* ===== verification/Driver.v ===== *)
(** The top-level loop of src/mastermind.py (lines 89-92): every
    candidate, numbered from 1, is announced and then solved as the
    secret of one game.  The exhaustive regression of the spec (each of
    the 1680 candidates, taken as the secret, is found) is proved here
    by evaluating the solver on all of them, with the number of guesses
    each game takes.  The same evaluation over the 2416 secrets of four
    colours that repeat a colour shows that [solve], which does not
    validate its argument, plays them until the candidates run out; a
    secret of more than four colours can only be answered with its first
    four colours. *)

From S2P Require Import Prelude Types Scoring Candidates Clues Solver SolverInv Format.
Import Scoring Solver.

Open Scope mm_scope.

Module Driver.

(** [for number, code in enumerate(codes, start=number)]:
    [print(f"Game number {number}, Selected code is ...")] and
    [answer = solve(code)] (the returned value is not used). *)
Fixpoint run_games (number : Z) (codes : list Code) : list Line :=
  match codes with
  | [] => []
  | code :: rest =>
      let answer := solve score_guess code in
      (GameLine number code :: answer.2) ++ run_games (number + 1) rest
  end.

(** The lines the script prints: the games over
    [all_possible_solutions()], numbered from 1. *)
Definition main : list Line := run_games 1 all_possible_solutions.

(** The text the script writes to standard output. *)
Definition script_stdout : String.string := Format.stdout main.

(** The regression check of the spec, as a boolean: every candidate is
    found by [solve], printing at most [max_lines] guess lines. *)
Definition regression_ok (max_lines : nat) (codes : list Code) : bool :=
  forallb (fun a => let r := solve score_guess a in
                    (r.1 == Some a) && bool_decide (length r.2 <= max_lines)) codes.

(** The secrets of [CODE_LEN] colours that repeat a colour: the codes
    [itertools.product(Colors, repeat=CODE_LEN)] has and the candidates
    have not. *)
Definition repeated_colour_codes : list Code :=
  List.filter (fun c => bool_decide (¬ NoDup c)) (product Colors_members (Z.to_nat CODE_LEN)).

(** The loop of [solve] ends because the candidates ran out, after at
    most [max_lines] printed guess lines, for every secret of [codes]. *)
Definition depleted_ok (max_lines : nat) (codes : list Code) : bool :=
  forallb (fun a => let r := solve_loop score_guess a all_possible_solutions solve_init in
                    match r.1 with
                    | Depleted => bool_decide (length (printed r.2) <= max_lines)
                    | _ => false
                    end) codes.

Lemma regression_check : regression_ok 7 all_possible_solutions = true.
Proof. vm_cast_no_check (eq_refl true). Qed.

Lemma regression_of_check (n : nat) (codes : list Code) (a : Code) :
  regression_ok n codes = true -> a ∈ codes ->
  (solve score_guess a).1 = Some a /\ (length (solve score_guess a).2 <= n)%nat.
Proof.
  unfold regression_ok. rewrite forallb_forall. intros Hall Ha%list_elem_of_In.
  specialize (Hall a Ha). apply andb_prop in Hall as [H1 H2]. bdec. done.
Qed.

Lemma depleted_check : depleted_ok 7 repeated_colour_codes = true.
Proof. vm_cast_no_check (eq_refl true). Qed.

Lemma depleted_of_check (n : nat) (codes : list Code) (a : Code) :
  depleted_ok n codes = true -> a ∈ codes ->
  (solve_loop score_guess a all_possible_solutions solve_init).1 = Depleted /\
  exists out, (length out <= n)%nat /\ solve score_guess a = (None, out ++ [FailLine]).
Proof.
  unfold depleted_ok. rewrite forallb_forall. intros Hall Ha%list_elem_of_In.
  specialize (Hall a Ha). cbv zeta in Hall. unfold solve.
  destruct (solve_loop score_guess a all_possible_solutions solve_init) as [[] st]; try done.
  cbn in Hall. bdec. split; [done|]. by exists (printed st).
Qed.

Lemma elem_of_repeated_colour_codes (a : Code) :
  length a = 4 -> ¬ NoDup a -> a ∈ repeated_colour_codes.
Proof.
  intros Hl Hnd. unfold repeated_colour_codes. rewrite elem_of_filter_bool, bool_decide_eq_true.
  split; [|done]. apply elem_of_product. split; [done|]. intros x _. apply Colors_members_complete.
Qed.

(** A game won by [solve] prints only guess lines. *)
Lemma solve_found_guess_lines (a s : Code) (l : Line) :
  (solve score_guess a).1 = Some s -> l ∈ (solve score_guess a).2 ->
  exists n c sc, l = GuessLine n c sc.
Proof.
  destruct (solve_loop_reachable score_guess a) as [rem Hr]. unfold solve.
  destruct (solve_loop score_guess a all_possible_solutions solve_init) as [e st].
  destruct e; cbn; intros Hs; try discriminate.
  destruct (reachable_output _ _ _ _ Hr) as (Hpr & _). cbn in Hpr. rewrite Hpr.
  unfold guess_lines. rewrite elem_of_app, list_elem_of_singleton.
  intros [(i & c & -> & _)%elem_of_lookup_imap | ->]; eauto.
Qed.

Definition is_game_line (l : Line) : bool :=
  match l with GameLine _ _ => true | _ => false end.

Lemma filter_guess_lines (out : list Line) :
  (forall l, l ∈ out -> exists n c sc, l = GuessLine n c sc) ->
  List.filter is_game_line out = [] /\ FailLine ∉ out.
Proof.
  induction out as [|l out IH]; intros Hout; [split; [done | set_solver]|].
  destruct (Hout l) as (n & c & sc & ->); [set_solver|].
  destruct IH as [IH1 IH2]; [intros; apply Hout; set_solver|]. cbn. split; [done | set_solver].
Qed.

Lemma run_games_spec (n : Z) (codes : list Code) :
  regression_ok 7 codes = true ->
  List.filter is_game_line (run_games n codes) =
    imap (fun i c => GameLine (n + Z.of_nat i) c) codes /\
  FailLine ∉ run_games n codes.
Proof.
  revert n. induction codes as [|a codes IH]; intros n Hok; [split; [done | set_solver]|].
  cbn in Hok. apply andb_prop in Hok as [Ha Hok]. apply andb_prop in Ha as [Ha _]. bdec.
  destruct (filter_guess_lines (solve score_guess a).2) as [Hf Hnf].
  { intros l Hl. by eapply solve_found_guess_lines. }
  destruct (IH (n + 1)%Z Hok) as [IH1 IH2].
  cbn [run_games]. rewrite List.filter_app, imap_cons. cbn [List.filter is_game_line].
  rewrite Hf, IH1. split.
  - cbn. f_equal; [f_equal; lia|]. apply imap_ext. intros i x _. cbn. f_equal. lia.
  - rewrite elem_of_app, elem_of_cons. intros [[? | ?] | ?]; [discriminate | done | done].
Qed.

(** The script's output, game by game: the game line and then what
    [solve] prints. *)
Lemma run_games_join (n : Z) (codes : list Code) :
  run_games n codes =
    List.concat (imap (fun i c => GameLine (n + Z.of_nat i) c :: (solve score_guess c).2) codes).
Proof.
  revert n. induction codes as [|c codes IH]; intros n; [done|].
  cbn [run_games]. rewrite IH, imap_cons. cbn [List.concat]. rewrite Z.add_0_r. do 2 f_equal.
  apply imap_ext. intros i x _. cbn.
  by replace (n + 1 + Z.of_nat i)%Z with (n + Z.of_nat (S i))%Z by lia.
Qed.

(** A game that [solve] wins: the winning code is a candidate scoring
    all positions exact; the output is one numbered line per clue, each
    clue holding the score received against the secret, and then the
    winning line. *)
Lemma solve_found_output (a s : Code) :
  (solve score_guess a).1 = Some s ->
  s ∈ all_possible_solutions /\ num_correct (score_guess s a) = CODE_LEN /\
  exists cl : list Clue, Forall (scored_against score_guess a) cl /\
    (solve score_guess a).2 = guess_lines cl ++ [GuessLine (Z.of_nat (length cl) + 1) s (score_guess s a)].
Proof.
  destruct (solve_loop_reachable score_guess a) as [rem Hr].
  pose proof (solver_inv_reachable _ _ _ _ Hr) as Hinv.
  unfold solve. destruct (solve_loop score_guess a all_possible_solutions solve_init) as [e st].
  destruct e as [s'| |]; cbn [fst snd]; intros Hs; try discriminate. injection Hs as <-.
  cbn [exit_phase] in Hinv. split; [|split]; [apply (inv_solved _ _ _ _ Hinv s'); done ..|].
  exists (clues st). split; [exact (inv_scored _ _ _ _ Hinv)|].
  pose proof (inv_printed _ _ _ _ Hinv) as Hp. pose proof (inv_counter _ _ _ _ Hinv) as Hc.
  cbn in Hp, Hc. by rewrite Hp, Hc.
Qed.

(** C1: the exhaustive regression: every one of the 1680 candidates,
    taken as the secret, is returned by [solve], which prints at most
    seven guess lines for it, far below [MAX_TRIES]. *)
Theorem solve_exhaustive (answer : Code) :
  answer ∈ all_possible_solutions ->
  (solve score_guess answer).1 = Some answer /\ (length (solve score_guess answer).2 <= 7)%nat.
Proof. intros Ha. exact (regression_of_check 7 _ answer regression_check Ha). Qed.

(** C23: a secret of four colours that repeats a colour is not rejected
    (the code has no validation of the secret): [solve] plays it, the
    loop ends because the candidates ran out, never at [MAX_TRIES], after
    at most seven guess lines, and [solve] prints the failure line and
    returns [None]. *)
Theorem solve_repeated_colour_depleted (answer : Code) :
  length answer = 4 -> ¬ NoDup answer ->
  (solve_loop score_guess answer all_possible_solutions solve_init).1 = Depleted /\
  exists out, (length out <= 7)%nat /\ solve score_guess answer = (None, out ++ [FailLine]).
Proof.
  intros Hl Hnd. apply (depleted_of_check 7 repeated_colour_codes); [exact depleted_check|].
  by apply elem_of_repeated_colour_codes.
Qed.

(** C28: a secret longer than [CODE_LEN] colours is not rejected, and
    [solve] answers it, if at all, with a code that is not the secret:
    [zip] pairs only the first four positions, so the only code [solve]
    can return is the secret's first four colours.  When these are four
    distinct colours and the rest of the secret repeats them, the game is
    exactly the game against those four colours (same guesses, same
    clues, same output) and returns them. *)
Theorem solve_long_secret (answer : Code) :
  (4 < length answer)%nat ->
  (forall s, (solve score_guess answer).1 = Some s -> s = take 4 answer /\ s <> answer) /\
  (NoDup (take 4 answer) -> (forall c, c ∈ answer -> c ∈ take 4 answer) ->
   solve score_guess answer = solve score_guess (take 4 answer) /\
   (solve score_guess answer).1 = Some (take 4 answer)).
Proof.
  intros Hlong. split.
  - intros s Hs. destruct (solve_found_output answer s Hs) as (Hin & Hwin & _).
    pose proof (candidate_length s Hin) as Hl.
    assert (Heq : s = take 4 answer).
    { rewrite score_guess_fields in Hwin. cbn [num_correct] in Hwin.
      rewrite exact_count_take, Hl in Hwin.
      apply exact_count_full; rewrite length_take; [lia|]. rewrite Hwin. unfold CODE_LEN. lia. }
    split; [done|]. intros Hsa. apply (f_equal length) in Hsa. rewrite Heq, length_take in Hsa. lia.
  - intros Hnd Hsub.
    assert (Hext : solve score_guess answer = solve score_guess (take 4 answer)).
    { apply solve_answer_ext. intros c Hc.
      pose proof (candidate_length c Hc) as Hl. rewrite <- Hl. apply score_guess_take. by rewrite Hl. }
    split; [done|]. rewrite Hext.
    apply (regression_of_check 7 all_possible_solutions (take 4 answer) regression_check).
    apply candidate_intro; [rewrite length_take; lia | done].
Qed.

(** C17: the script's output is, game after game in enumeration order and
    numbered from 1, the game line of the candidate followed by what
    [solve] prints for it as the secret; each of these games is won and
    prints at most six numbered guess lines, each with the clue received
    against the secret, then the winning line of the secret with four
    exact pegs; the failure line is never printed. *)
Theorem main_games :
  main = List.concat (imap (fun i c => GameLine (1 + Z.of_nat i) c :: (solve score_guess c).2)
                        all_possible_solutions) /\
  (forall c, c ∈ all_possible_solutions -> exists cl : list Clue,
     (length cl <= 6)%nat /\ Forall (scored_against score_guess c) cl /\
     (solve score_guess c).2 = guess_lines cl ++ [GuessLine (Z.of_nat (length cl) + 1) c (mkScore 4 0)]) /\
  FailLine ∉ main.
Proof.
  split; [apply run_games_join|]. split; [|apply run_games_spec, regression_check].
  intros c Hc. destruct (regression_of_check 7 _ c regression_check Hc) as [Hs Hlen].
  destruct (solve_found_output c c Hs) as (_ & _ & cl & Hsc & Hout). exists cl.
  rewrite Hout in Hlen |- *. unfold guess_lines in Hlen. rewrite length_app, length_imap in Hlen.
  cbn [length] in Hlen. split; [lia|]. split; [done|].
  rewrite score_guess_fields, exact_count_self, present_count_self, (candidate_length c Hc).
  reflexivity.
Qed.

(** ** Witnesses *)

Lemma solve_exhaustive_witness :
  [GREY; CYAN; RED; PINK] ∈ all_possible_solutions /\
  (solve score_guess [GREY; CYAN; RED; PINK]).1 = Some [GREY; CYAN; RED; PINK] /\
  (length (solve score_guess [GREY; CYAN; RED; PINK]).2 <= 7)%nat.
Proof.
  assert (H : [GREY; CYAN; RED; PINK] ∈ all_possible_solutions)
    by (apply (bool_decide_unpack _); vm_compute; reflexivity).
  split; [exact H | exact (solve_exhaustive _ H)].
Defined.

Lemma solve_repeated_colour_depleted_witness :
  length [PINK; RED; PINK; CYAN] = 4 /\ ¬ NoDup [PINK; RED; PINK; CYAN] /\
  (solve_loop score_guess [PINK; RED; PINK; CYAN] all_possible_solutions solve_init).1 = Depleted /\
  exists out, (length out <= 7)%nat /\
    solve score_guess [PINK; RED; PINK; CYAN] = (None, out ++ [FailLine]).
Proof.
  assert (H1 : length [PINK; RED; PINK; CYAN] = 4) by reflexivity.
  assert (H2 : ¬ NoDup [PINK; RED; PINK; CYAN])
    by (apply (bool_decide_unpack _); vm_compute; reflexivity).
  split; [exact H1|]. split; [exact H2|]. exact (solve_repeated_colour_depleted _ H1 H2).
Defined.

Lemma solve_long_secret_witness :
  (4 < length [RED; GREEN; BLUE; YELLOW; RED])%nat /\
  solve score_guess [RED; GREEN; BLUE; YELLOW; RED] = solve score_guess [RED; GREEN; BLUE; YELLOW] /\
  (solve score_guess [RED; GREEN; BLUE; YELLOW; RED]).1 = Some [RED; GREEN; BLUE; YELLOW].
Proof.
  assert (H : (4 < length [RED; GREEN; BLUE; YELLOW; RED])%nat) by (cbn; lia).
  assert (Hnd : NoDup (take 4 [RED; GREEN; BLUE; YELLOW; RED]))
    by (apply (bool_decide_unpack _); vm_compute; reflexivity).
  assert (Hsub : forall c, c ∈ [RED; GREEN; BLUE; YELLOW; RED] -> c ∈ take 4 [RED; GREEN; BLUE; YELLOW; RED])
    by (cbn; set_solver).
  split; [exact H|]. exact (proj2 (solve_long_secret _ H) Hnd Hsub).
Defined.

End Driver.
